(** * Cross join of two device-resident tables (cudf, [cpp/src/join/cross_join.cu])

    The development embeds [cudf::detail::cross_join] and [cudf::cross_join]
    over an explicit model of device memory: a heap of device buffers, a
    count of free cells, and a trace of the primitive invocations made.
    Computations live in a state-and-error monad, so that allocation
    failures, stack unwinding and the frame of the call can be stated. *)

From Stdlib Require Import ZArith String Lia.
From stdpp Require Import base list.

(** ** Errors and the computation monad *)

(** [cudf::logic_error] is what [CUDF_EXPECTS] throws (see the [@throws]
    note of [detail::cross_join]); the other two stand for a failed
    allocation and a failed device operation. *)
Inductive cudf_error : Type :=
  | logic_error (what : string)
  | bad_alloc
  | cuda_error.

Definition result (A : Type) : Type := (cudf_error + A)%type.

(** ** Device memory *)

(** Modelled from the spec: a row count.  The contracts of the
    specification put no bound on it ([cudf::size_type] is declared in a
    header that is not in the sources). *)
Definition size_type := nat.
(** Handles of a Device Memory Resource and of an Execution Stream; the
    join passes them on and never looks inside. *)
Definition memory_resource := nat.
Definition cudaStream_t := nat.

(** [rmm::mr::get_default_resource()], the default of the [mr] parameter. *)
Definition get_default_resource : memory_resource := 0.
(** The default stream, [cudaStream_t stream = 0]. *)
Definition default_stream : cudaStream_t := 0.

(** Modelled from the spec: a device buffer, with its cells, the resource
    it was allocated through and the stream the allocation was ordered on. *)
Record device_buffer : Type := mk_buffer {
  cells : list Z;
  buf_mr : memory_resource;
  buf_stream : cudaStream_t
}.

(** The primitives [cross_join] composes. *)
Inductive primitive : Type :=
  | prim_repeat
  | prim_tile
  | prim_empty_like
  | prim_table.

(** One invocation of a primitive: the resource and stream arguments it was
    given ([None] when its signature has no such argument) and how it ended. *)
Record invocation : Type := mk_invocation {
  inv_prim : primitive;
  inv_mr : option memory_resource;
  inv_stream : option cudaStream_t;
  inv_error : option cudf_error
}.

(** Modelled from the spec: the device as the host sees it.  Buffer handles
    index [heap] and a freed buffer leaves [None] behind; [free_cells] is
    what the resources can still give out; [trace] lists the invocations
    made so far, oldest first. *)
Record world : Type := mk_world {
  heap : list (option device_buffer);
  free_cells : nat;
  trace : list invocation
}.

Definition M (A : Type) : Type := world -> world * result A.

Definition ret {A} (a : A) : M A := fun w => (w, inr a).
Definition throw {A} (e : cudf_error) : M A := fun w => (w, inl e).
Definition bind {A B} (m : M A) (k : A -> M B) : M B :=
  fun w => match m w with
           | (w', inr a) => k a w'
           | (w', inl e) => (w', inl e)
           end.

Notation "'let*' x ':=' m 'in' k" := (bind m (fun x => k))
  (at level 10, x name, m at level 100, k at level 200).
Notation "'let*' '_' ':=' m 'in' k" := (bind m (fun _ => k))
  (at level 10, m at level 100, k at level 200).

(** What leaving a scope by an exception does: the destructors of the
    objects alive in that scope run ([cleanup]) and the exception goes on
    unchanged. *)
Definition unwind {A} (cleanup : world -> world) (m : M A) : M A :=
  fun w => match m w with
           | (w', inl e) => (cleanup w', inl e)
           | r => r
           end.

(** The cells of a live buffer. *)
Definition read_buffer (h : list (option device_buffer)) (id : nat)
  : option (list Z) :=
  match h !! id with
  | Some (Some b) => Some (cells b)
  | _ => None
  end.

(** Modelled from the spec: allocation through a Device Memory Resource.
    It fails when the request cannot be satisfied, otherwise the new buffer
    gets the next handle. *)
Definition device_alloc (mr : memory_resource) (stream : cudaStream_t)
    (cs : list Z) : M nat :=
  fun w => if length cs <=? free_cells w
           then (mk_world (heap w ++ [Some (mk_buffer cs mr stream)])
                          (free_cells w - length cs) (trace w),
                 inr (length (heap w)))
           else (w, inl bad_alloc).

(** Modelled from the spec: deallocation gives the cells of a live buffer
    back. *)
Definition device_free (id : nat) (w : world) : world :=
  match read_buffer (heap w) id with
  | Some cs => mk_world (<[id := None]> (heap w))
                        (free_cells w + length cs) (trace w)
  | None => w
  end.

(** ** Columns and tables *)

(** Modelled from the spec: the element type tag of a Column ([cudf::type_id],
    whose declaration is not part of the sources at hand). *)
Inductive type_id : Type :=
  | EMPTY | INT8 | INT16 | INT32 | INT64 | FLOAT32 | FLOAT64 | BOOL8 | STRING.

(** Modelled from the spec: a Column is an element type tag, a row count, a
    device buffer handle and an optional null-bitmap buffer handle.  A view
    has the same fields and owns nothing. *)
Record column_view : Type := mk_column {
  col_type : type_id;
  col_size : size_type;
  col_data : nat;
  col_null_mask : option nat
}.
Abbreviation column := column_view (only parsing).

(** Modelled from the spec: a Table is an ordered sequence of Columns and a
    row count. *)
Record table_view : Type := mk_table {
  columns : list column_view;
  num_rows : size_type
}.
Abbreviation table := table_view (only parsing).

Definition num_columns (t : table_view) : size_type := length (columns t).

(** [table::release()]: the columns leave the table. *)
Definition release (t : table) : list column := columns t.

(** [table::view()]. *)
Definition view (t : table) : table_view := t.

(** The buffers a column owns. *)
Definition column_buffers (c : column_view) : list nat :=
  col_data c :: match col_null_mask c with Some k => [k] | None => [] end.

(** Modelled from the spec: destroying a Column, a list of Columns or a
    Table releases the device memory it owns. *)
Definition destroy_column (c : column) (w : world) : world :=
  foldr device_free w (column_buffers c).

Definition destroy_columns (cs : list column) (w : world) : world :=
  foldr destroy_column w cs.

Definition destroy_table (t : table) (w : world) : world :=
  destroy_columns (columns t) w.

(** Reading a column back from the device: its cells and, when it has a
    null bitmap, one validity cell per row. *)
Definition read_column (h : list (option device_buffer)) (c : column_view)
  : option (list Z * option (list Z)) :=
  match read_buffer h (col_data c) with
  | None => None
  | Some d =>
      match col_null_mask c with
      | None => Some (d, None)
      | Some k => match read_buffer h k with
                  | Some m => Some (d, Some m)
                  | None => None
                  end
      end
  end.

(** The element of a column at row [i]: the value and, for a nullable
    column, its validity cell. *)
Definition element (h : list (option device_buffer)) (c : column_view) (i : nat)
  : option (Z * option Z) :=
  match read_column h c with
  | None => None
  | Some (d, None) => match d !! i with
                      | Some v => Some (v, None)
                      | None => None
                      end
  | Some (d, Some m) => match d !! i, m !! i with
                        | Some v, Some b => Some (v, Some b)
                        | _, _ => None
                        end
  end.

Definition row (h : list (option device_buffer)) (t : table_view) (i : nat)
  : list (option (Z * option Z)) :=
  map (fun c => element h c i) (columns t).

Definition schema (t : table_view) : list type_id := map col_type (columns t).

(** The Column and Table invariants, checked against the device: every
    column has the table's row count and buffers of that many cells. *)
Definition column_ok (h : list (option device_buffer)) (n : size_type)
    (c : column_view) : bool :=
  (col_size c =? n) &&
  match read_column h c with
  | Some (d, None) => length d =? n
  | Some (d, Some m) => (length d =? n) && (length m =? n)
  | None => false
  end.

Definition table_ok (h : list (option device_buffer)) (t : table_view) : bool :=
  forallb (column_ok h (num_rows t)) (columns t).

(** ** The primitives

    [repeat], [tile], [empty_like] and the [table] constructor are declared
    in headers the join includes; their bodies follow the contracts of the
    specification. *)

(** Modelled from the spec: running a primitive; the invocation and how it
    ended are recorded. *)
Definition invoke {A} (p : primitive) (mr : option memory_resource)
    (stream : option cudaStream_t) (m : M A) : M A :=
  fun w => match m w with
           | (w', r) =>
               (mk_world (heap w') (free_cells w')
                  (trace w' ++ [mk_invocation p mr stream
                                  match r with inl e => Some e | inr _ => None end]),
                r)
           end.

(** Modelled from the spec: each row [count] times, consecutively. *)
Definition repeat_cells {A} (count : nat) (l : list A) : list A :=
  flat_map (fun x => replicate count x) l.

(** Modelled from the spec: the whole list [count] times, end to end. *)
Definition tile_cells {A} (count : nat) (l : list A) : list A :=
  concat (replicate count l).

(** Modelled from the spec: a new column of type [ty] and [n] rows that owns
    fresh buffers holding [d] and, when there is one, the null mask [m]; a
    failure on the mask releases the data buffer. *)
Definition make_column (ty : type_id) (n : size_type) (d : list Z)
    (m : option (list Z)) (mr : memory_resource) (stream : cudaStream_t)
  : M column :=
  let* nd := device_alloc mr stream d in
  match m with
  | None => ret (mk_column ty n nd None)
  | Some mc =>
      let* nm := unwind (device_free nd) (device_alloc mr stream mc) in
      ret (mk_column ty n nd (Some nm))
  end.

(** Modelled from the spec: reading the source column; a handle that names
    no live buffer is a device failure. *)
Definition fetch_column (c : column_view) : M (list Z * option (list Z)) :=
  fun w => match read_column (heap w) c with
           | Some dm => (w, inr dm)
           | None => (w, inl cuda_error)
           end.

(** Modelled from the spec: a new column whose buffers hold [f] of the
    source's, allocated through [mr] on [stream]. *)
Definition derive_column (f : list Z -> list Z) (new_size : size_type -> size_type)
    (mr : memory_resource) (stream : cudaStream_t) (c : column_view) : M column :=
  let* dm := fetch_column c in
  make_column (col_type c) (new_size (col_size c))
    (f (fst dm)) (option_map f (snd dm)) mr stream.

(** Modelled from the spec: a zero-row column of the same type and
    null-mask capability, with zero-length buffers. *)
Definition empty_like_column (c : column_view) : M column :=
  make_column (col_type c) 0 [] (option_map (fun _ => []) (col_null_mask c))
    get_default_resource default_stream.

(** Modelled from the spec: the columns of a new table, one by one; when
    one fails the ones already built are destroyed. *)
Fixpoint build_columns (f : column_view -> M column) (cs : list column_view)
  : M (list column) :=
  match cs with
  | [] => ret []
  | c :: cs' =>
      let* c' := f c in
      let* rest := unwind (destroy_column c') (build_columns f cs') in
      ret (c' :: rest)
  end.

(** Modelled from the spec: the shape the three table primitives share, one
    invocation that builds a column per input column and returns them as a
    table of [rows] rows. *)
Definition build_table (p : primitive) (mr : option memory_resource)
    (stream : option cudaStream_t) (f : column_view -> M column)
    (input : table_view) (rows : size_type) : M table :=
  invoke p mr stream
    (let* cols := build_columns f (columns input) in
     ret (mk_table cols rows)).

(** Modelled from the spec: a repetition factor, a scalar applied uniformly
    to every row ([cudf::numeric_scalar<size_type>], not in the sources). *)
Record numeric_scalar : Type := mk_scalar { value : size_type }.

(** Modelled from the spec: Row-Repetition, [detail::repeat(table, count, mr,
    stream)], not in the sources.  The result has [rows * factor] rows and
    output row [k] is input row [k / factor]; column types and null masks
    are kept. *)
Definition detail_repeat (input : table_view) (count : numeric_scalar)
    (mr : memory_resource) (stream : cudaStream_t) : M table :=
  build_table prim_repeat (Some mr) (Some stream)
    (derive_column (repeat_cells (value count)) (fun n => n * value count)
       mr stream)
    input (num_rows input * value count).

(** Modelled from the spec: Row-Tiling, the public [cudf::tile(table, count,
    mr)], not in the sources.  The result has [rows * count] rows, [count]
    full copies of the input in order.  The public entry takes no stream: its
    work goes to the default stream. *)
Definition tile (input : table_view) (count : size_type)
    (mr : memory_resource) : M table :=
  build_table prim_tile (Some mr) None
    (derive_column (tile_cells count) (fun n => n * count) mr default_stream)
    input (num_rows input * count).

(** Modelled from the spec: Empty-Like, [cudf::empty_like(table)], not in the
    sources.  A zero-row table, one column per input column with the same
    element type and null-mask capability, with zero-length buffers.  It
    takes neither a resource nor a stream: the empty buffers belong to the
    default resource. *)
Definition empty_like (input : table_view) : M table :=
  build_table prim_empty_like None None empty_like_column input 0.

(** Modelled from the spec: the [table] constructor
    ([std::make_unique<table>(std::move(columns))], not in the sources).  It
    takes ownership of the columns, asserts nothing about the two lists that
    were stitched, and its row count is that of its columns. *)
Definition make_unique_table (cols : list column) : M table :=
  invoke prim_table None None
    (ret (mk_table cols match cols with
                        | [] => 0
                        | c :: _ => col_size c
                        end)).

(** Modelled from the spec: [CUDF_EXPECTS(cond, reason)] (a macro of
    [cudf/utilities/error.hpp], not in the sources) raises
    [cudf::logic_error] with [reason] when [cond] is false. *)
Definition CUDF_EXPECTS (cond : bool) (reason : string) : M unit :=
  if cond then ret tt else throw (logic_error reason).

(** ** The cross join *)

Module detail.

(** [cudf::detail::cross_join].  The two locals that own columns while a
    later call can still throw, [empty_left_columns] and [left_repeated],
    are destroyed when it does. *)
Definition cross_join (left right : table_view) (mr : memory_resource)
    (stream : cudaStream_t) : M table :=
  let* _ := CUDF_EXPECTS (negb (0 =? num_columns left)) "Left table is empty" in
  let* _ := CUDF_EXPECTS (negb (0 =? num_columns right)) "Right table is empty" in
  if (0 =? num_rows left) || (0 =? num_rows right) then
    let* empty_left := empty_like left in
    let empty_left_columns := release empty_left in
    let* empty_right := unwind (destroy_columns empty_left_columns)
                          (empty_like right) in
    let empty_right_columns := release empty_right in
    make_unique_table (empty_left_columns ++ empty_right_columns)
  else
    let num_repeats := mk_scalar (num_rows right) in
    let* left_repeated := detail_repeat left num_repeats mr stream in
    let* right_tiled := unwind (destroy_table left_repeated)
                          (tile right (num_rows left) mr) in
    let left_repeated_columns := release left_repeated in
    let right_tiled_columns := release right_tiled in
    make_unique_table (left_repeated_columns ++ right_tiled_columns).

End detail.

(** [cudf::cross_join]: the public entry runs on stream 0. *)
Definition cross_join (left right : table_view) (mr : memory_resource)
  : M table :=
  detail.cross_join left right mr 0.

(** * Vocabulary of the properties *)

Definition total_cells (bs : list device_buffer) : nat :=
  list_sum (map (fun b => length (cells b)) bs).

(** A buffer allocated through [mr] on stream [s]. *)
Definition via (mr : memory_resource) (s : cudaStream_t) (b : device_buffer)
  : Prop :=
  buf_mr b = mr /\ buf_stream b = s.

(** [built tag evs w w' ids bs]: from [w] to [w'] exactly the buffers [bs]
    were allocated, each satisfying [tag]; their handles are [ids], their
    cells were taken from the free ones, and [evs] was appended to the
    trace.  Nothing that existed in [w] was touched. *)
Record built (tag : device_buffer -> Prop) (evs : list invocation)
    (w w' : world) (ids : list nat) (bs : list device_buffer) : Prop := {
  built_heap : heap w' = heap w ++ map Some bs;
  built_ids : ids = seq (length (heap w)) (length bs);
  built_tag : Forall tag bs;
  built_free : free_cells w' + total_cells bs = free_cells w;
  built_trace : trace w' = trace w ++ evs
}.

(** [rolled_back evs w w' k]: from [w] to [w'] everything allocated was
    freed again, leaving [k] holes behind. *)
Record rolled_back (evs : list invocation) (w w' : world) (k : nat) : Prop := {
  rb_heap : heap w' = heap w ++ replicate k None;
  rb_free : free_cells w' = free_cells w;
  rb_trace : trace w' = trace w ++ evs
}.

Definition cells_needed (d : list Z) (m : option (list Z)) : nat :=
  length d + match m with Some x => length x | None => 0 end.

(** The column [c'] holds [f] of the cells and of the null mask of [c], has
    its element type, and [g] of its row count. *)
Definition derived (f : list Z -> list Z) (g : size_type -> size_type)
    (h : list (option device_buffer)) (c : column_view) (c' : column) : Prop :=
  col_type c' = col_type c /\ col_size c' = g (col_size c) /\
  exists d m, read_column h c = Some (d, m) /\
              read_column h c' = Some (f d, option_map f m).

Definition readable (h : list (option device_buffer)) (c : column_view) : Prop :=
  is_Some (read_column h c).

Definition derive_cost (f : list Z -> list Z) (h : list (option device_buffer))
    (c : column_view) : nat :=
  match read_column h c with
  | Some (d, m) => cells_needed (f d) (option_map f m)
  | None => 0
  end.

(** The cells the copies of the columns [cs] take. *)
Definition total_cost (cost : list (option device_buffer) -> column_view -> nat)
    (h : list (option device_buffer)) (cs : list column_view) : nat :=
  list_sum (map (cost h) cs).

Definition emptied (h : list (option device_buffer)) (c : column_view)
    (c' : column) : Prop :=
  col_type c' = col_type c /\ col_size c' = 0 /\
  read_column h c' = Some ([], option_map (fun _ => []) (col_null_mask c)).

(** Both paths have one shape: a first table is built, a second one while
    the first is owned by a local, and their columns make the result. *)
Definition stitched (m1 m2 : M table) : M table :=
  let* t1 := m1 in
  let* t2 := unwind (destroy_columns (release t1)) m2 in
  make_unique_table (release t1 ++ release t2).

Definition first_size (cols : list column) : size_type :=
  match cols with
  | [] => 0
  | c :: _ => col_size c
  end.

Definition repeat_cost (k : nat) (h : list (option device_buffer))
    (t : table_view) : nat :=
  total_cost (derive_cost (repeat_cells k)) h (columns t).

Definition tile_cost (k : nat) (h : list (option device_buffer))
    (t : table_view) : nat :=
  total_cost (derive_cost (tile_cells k)) h (columns t).

Definition ev_ok (p : primitive) (mr : option memory_resource)
    (s : option cudaStream_t) : invocation :=
  mk_invocation p mr s None.
Definition ev_failed (p : primitive) (mr : option memory_resource)
    (s : option cudaStream_t) (e : cudf_error) : invocation :=
  mk_invocation p mr s (Some e).

Definition through (mr : memory_resource) (b : device_buffer) : Prop :=
  buf_mr b = mr.

Definition buffer_count (t : table_view) : nat :=
  length (flat_map column_buffers (columns t)).

Definition cross_join_cells (left right : table_view) : nat :=
  num_rows left * num_rows right * (buffer_count left + buffer_count right).

(** What a cross join that returned [t] has done: [t] owns exactly the
    buffers allocated, satisfies the Table invariant, and has the rows of
    the Cartesian product in right-row-fastest order. *)
Record joined (left right : table_view) (tag : device_buffer -> Prop)
    (evs : list invocation) (w w' : world) (t : table)
    (bs : list device_buffer) : Prop := {
  j_built : built tag evs w w' (flat_map column_buffers (columns t)) bs;
  j_cells : total_cells bs = cross_join_cells left right;
  j_ok : table_ok (heap w') t = true;
  j_rows : num_rows t = num_rows left * num_rows right;
  j_cols : num_columns t = num_columns left + num_columns right;
  j_schema : schema t = schema left ++ schema right;
  j_buffers : buffer_count t = buffer_count left + buffer_count right;
  j_row : forall i, i < num_rows left * num_rows right ->
            row (heap w') t i =
            row (heap w) left (i / num_rows right) ++
            row (heap w) right (i mod num_rows right)
}.

(** The invocations a successful call makes. *)
Definition path_events (left right : table_view) (mr : memory_resource)
    (s : cudaStream_t) : list invocation :=
  if (0 =? num_rows left) || (0 =? num_rows right)
  then [ev_ok prim_empty_like None None; ev_ok prim_empty_like None None;
        ev_ok prim_table None None]
  else [ev_ok prim_repeat (Some mr) (Some s); ev_ok prim_tile (Some mr) None;
        ev_ok prim_table None None].

(** The resource the buffers of the result come from. *)
Definition path_resource (left right : table_view) (mr : memory_resource)
  : memory_resource :=
  if (0 =? num_rows left) || (0 =? num_rows right)
  then get_default_resource else mr.

(** What the call-site of each primitive gives it, as [cross_join] is
    written: the caller's stream goes to Row-Repetition; Empty-Like and the
    table constructor have no stream argument.  Nothing is said of
    Row-Tiling. *)
Definition stream_rule (s : cudaStream_t) (ev : invocation) : Prop :=
  match inv_prim ev with
  | prim_repeat => inv_stream ev = Some s
  | prim_tile => True
  | prim_empty_like | prim_table => inv_stream ev = None
  end.

(** The caller's resource goes to Row-Repetition and Row-Tiling; Empty-Like
    and the table constructor have no resource argument. *)
Definition resource_rule (mr : memory_resource) (ev : invocation) : Prop :=
  match inv_prim ev with
  | prim_repeat | prim_tile => inv_mr ev = Some mr
  | prim_empty_like | prim_table => inv_mr ev = None
  end.

(** Every buffer of the column is live and was allocated through [mr]. *)
Definition allocated_through (h : list (option device_buffer))
    (mr : memory_resource) (c : column_view) : Prop :=
  Forall (fun id => exists b, h !! id = Some (Some b) /\ buf_mr b = mr)
    (column_buffers c).

(** ** A small device to run the join on

    The example of the specification: a left table of one column and two
    rows (1, 2), a right table of one nullable column and three rows
    (10, 20, 30), on a device with a hundred free cells. *)
Definition example_world : world :=
  mk_world [Some (mk_buffer [1; 2]%Z 7 7);
            Some (mk_buffer [10; 20; 30]%Z 7 7);
            Some (mk_buffer [1; 0; 1]%Z 7 7);
            Some (mk_buffer [] 7 7);
            Some (mk_buffer [42]%Z 7 7)] 100 [].
Definition example_left : table_view :=
  mk_table [mk_column INT32 2 0 None] 2.
Definition example_right : table_view :=
  mk_table [mk_column INT64 3 1 (Some 2)] 3.
(** A table with no rows, a table with no columns, and a one-row table. *)
Definition example_no_rows : table_view :=
  mk_table [mk_column INT64 0 3 None] 0.
Definition example_no_columns : table_view := mk_table [] 0.
Definition example_single_row : table_view :=
  mk_table [mk_column INT8 1 4 None] 1.

(** The cells the second join of a nesting of three tables takes. *)
Definition nested_cells (a b c : table_view) : nat :=
  num_rows a * num_rows b * num_rows c *
  (buffer_count a + buffer_count b + buffer_count c).

(** The example device with room for seventeen cells only: the repetition
    of the left table fits, the null mask of the tiled right table does
    not. *)
Definition tight_world : world :=
  mk_world [Some (mk_buffer [1; 2]%Z 7 7);
            Some (mk_buffer [10; 20; 30]%Z 7 7);
            Some (mk_buffer [1; 0; 1]%Z 7 7)] 17 [].

(** ** Vocabulary of the further properties *)

(** All the rows of a table, in order. *)
Definition rows (h : list (option device_buffer)) (t : table_view)
  : list (list (option (Z * option Z))) :=
  map (row h t) (seq 0 (num_rows t)).

(** The Cartesian product of two lists of rows, the rows of the second
    cycling fastest. *)
Definition cartesian {A} (xs ys : list (list A)) : list (list A) :=
  flat_map (fun x => map (fun y => x ++ y) ys) xs.

(** [column_view::nullable()]: the column has a null mask. *)
Definition nullable (c : column_view) : bool :=
  match col_null_mask c with
  | Some _ => true
  | None => false
  end.

(** * Properties *)

(** ** Device memory *)

Lemma total_cells_app bs1 bs2 :
  total_cells (bs1 ++ bs2) = total_cells bs1 + total_cells bs2.
Proof. unfold total_cells. by rewrite map_app, list_sum_app. Qed.

Lemma read_buffer_app_l h ext id cs :
  read_buffer h id = Some cs -> read_buffer (h ++ ext) id = Some cs.
Proof.
  unfold read_buffer. destruct (h !! id) as [ob|] eqn:E; [|done].
  intros H. by rewrite (lookup_app_l_Some _ _ _ _ E).
Qed.

Lemma read_column_app_l h ext c dm :
  read_column h c = Some dm -> read_column (h ++ ext) c = Some dm.
Proof.
  unfold read_column.
  destruct (read_buffer h (col_data c)) as [d|] eqn:Ed; [|done].
  rewrite (read_buffer_app_l _ ext _ _ Ed).
  destruct (col_null_mask c) as [k|]; [|done].
  destruct (read_buffer h k) as [m|] eqn:Em; [|done].
  by rewrite (read_buffer_app_l _ ext _ _ Em).
Qed.

Lemma element_app_l h ext c i :
  is_Some (read_column h c) -> element (h ++ ext) c i = element h c i.
Proof.
  intros [dm E]. unfold element.
  by rewrite (read_column_app_l _ ext _ _ E), E.
Qed.

(** Freeing a run of live buffers leaves holes and gives the cells back. *)
Lemma free_run bs : forall pre post fr tr,
  foldr device_free (mk_world (pre ++ map Some bs ++ post) fr tr)
    (seq (length pre) (length bs))
  = mk_world (pre ++ replicate (length bs) None ++ post)
      (fr + total_cells bs) tr.
Proof.
  induction bs as [|b bs IH]; intros pre post fr tr; simpl.
  - f_equal. unfold total_cells. simpl. lia.
  - specialize (IH (pre ++ [Some b]) post fr tr).
    rewrite length_app in IH. simpl in IH.
    replace (length pre + 1) with (S (length pre)) in IH by lia.
    rewrite <- !app_assoc in IH. simpl in IH. rewrite IH.
    unfold device_free, read_buffer. simpl.
    rewrite list_lookup_middle by done. simpl.
    f_equal.
    + replace (length pre) with (length pre + 0) at 1 by lia.
      by rewrite insert_app_r.
    + unfold total_cells. simpl. lia.
Qed.

Lemma destroy_columns_flat cs w :
  destroy_columns cs w = foldr device_free w (flat_map column_buffers cs).
Proof.
  induction cs as [|c cs IH]; simpl; [done|].
  by rewrite foldr_app, <- IH.
Qed.

(** ** Repeating and tiling cells *)

Lemma length_repeat_cells {A} k (l : list A) :
  length (repeat_cells k l) = length l * k.
Proof.
  unfold repeat_cells. induction l as [|a l IH]; simpl; [done|].
  rewrite length_app, length_replicate, IH. lia.
Qed.

Lemma length_tile_cells {A} k (l : list A) :
  length (tile_cells k l) = length l * k.
Proof.
  unfold tile_cells. induction k as [|k IH]; simpl; [lia|].
  rewrite length_app, IH. lia.
Qed.

(** Output row [i] of a repetition is input row [i / k]. *)
Lemma lookup_repeat_cells {A} k (l : list A) i :
  0 < k -> repeat_cells k l !! i = l !! (i / k).
Proof.
  intros Hk. unfold repeat_cells. revert i.
  induction l as [|a l IH]; intros i; simpl; [done|].
  destruct (decide (i < k)) as [Hlt|Hge].
  - rewrite lookup_app_l by (by rewrite length_replicate).
    rewrite Nat.div_small by done. by apply lookup_replicate_2.
  - rewrite lookup_app_r by (rewrite length_replicate; lia).
    rewrite length_replicate, IH.
    replace i with ((i - k) + 1 * k) at 2 by lia.
    rewrite Nat.div_add by lia.
    by replace ((i - k) / k + 1) with (S ((i - k) / k)) by lia.
Qed.

(** Output row [i] of a tiling is input row [i mod length]. *)
Lemma lookup_tile_cells {A} k (l : list A) i :
  i < k * length l -> tile_cells k l !! i = l !! (i mod length l).
Proof.
  unfold tile_cells. revert i.
  induction k as [|k IH]; intros i Hi; simpl in *; [lia|].
  destruct (decide (i < length l)) as [Hlt|Hge].
  - rewrite lookup_app_l by done. by rewrite Nat.mod_small.
  - rewrite lookup_app_r by lia. rewrite IH by lia.
    replace i with ((i - length l) + 1 * length l) at 2 by lia.
    by rewrite Nat.Div0.mod_add.
Qed.

(** ** What a step of the computation did to the device *)

Lemma built_nil tag w : built tag [] w w [] [].
Proof.
  split; simpl; rewrite ?app_nil_r; auto.
Qed.

Lemma built_weaken (tag tag' : device_buffer -> Prop) evs w w' ids bs :
  (forall b, tag b -> tag' b) ->
  built tag evs w w' ids bs -> built tag' evs w w' ids bs.
Proof.
  intros Himp [H I T F R]. split; auto. eapply Forall_impl; eauto.
Qed.

Lemma built_app tag e1 e2 w w1 w2 i1 i2 b1 b2 :
  built tag e1 w w1 i1 b1 -> built tag e2 w1 w2 i2 b2 ->
  built tag (e1 ++ e2) w w2 (i1 ++ i2) (b1 ++ b2).
Proof.
  intros [H1 I1 T1 F1 R1] [H2 I2 T2 F2 R2]. split.
  - by rewrite H2, H1, map_app, app_assoc.
  - rewrite I1, I2, H1, !length_app, length_map, seq_app. done.
  - by apply Forall_app.
  - rewrite total_cells_app. lia.
  - by rewrite R2, R1, app_assoc.
Qed.

Lemma rolled_back_refl w : rolled_back [] w w 0.
Proof. split; simpl; by rewrite ?app_nil_r. Qed.

(** Destroying what was built, after a later step was rolled back, rolls
    the whole back. *)
Lemma built_rolled_back tag e1 e2 w w1 w2 ids bs k :
  built tag e1 w w1 ids bs -> rolled_back e2 w1 w2 k ->
  rolled_back (e1 ++ e2) w (foldr device_free w2 ids) (length bs + k).
Proof.
  intros [H1 I1 T1 F1 R1] [H2 F2 R2].
  destruct w2 as [h2 f2 t2]; simpl in *. subst h2 f2 t2 ids.
  rewrite H1, <- app_assoc, free_run.
  split; simpl.
  - by rewrite replicate_add.
  - lia.
  - by rewrite R1, app_assoc.
Qed.

Lemma rolled_back_trans e1 e2 w w1 w2 k1 k2 :
  rolled_back e1 w w1 k1 -> rolled_back e2 w1 w2 k2 ->
  rolled_back (e1 ++ e2) w w2 (k1 + k2).
Proof.
  intros [H1 F1 R1] [H2 F2 R2]. split.
  - by rewrite H2, H1, <- app_assoc, replicate_add.
  - lia.
  - by rewrite R2, R1, app_assoc.
Qed.

Lemma make_column_spec ty n d m mr s w :
  match make_column ty n d m mr s w with
  | (w', inr c) =>
      (exists bs, built (via mr s) [] w w' (column_buffers c) bs /\
                  total_cells bs = cells_needed d m) /\
      col_type c = ty /\ col_size c = n /\
      col_null_mask c = option_map (fun _ => S (length (heap w))) m /\
      read_column (heap w') c = Some (d, m)
  | (w', inl e) =>
      e = bad_alloc /\ free_cells w < cells_needed d m /\
      exists k, rolled_back [] w w' k
  end.
Proof.
  unfold make_column, bind, device_alloc, unwind, ret, cells_needed.
  destruct (length d <=? free_cells w) eqn:Ed; simpl.
  2:{ apply Nat.leb_gt in Ed. split; [done|]. split; [lia|].
      exists 0. apply rolled_back_refl. }
  apply Nat.leb_le in Ed.
  destruct m as [mc|]; simpl.
  - destruct (length mc <=? free_cells w - length d) eqn:Em; simpl.
    + apply Nat.leb_le in Em. rewrite length_app. simpl.
      repeat split.
      * exists [mk_buffer d mr s; mk_buffer mc mr s]. split.
        -- split; simpl.
           ++ by rewrite <- app_assoc.
           ++ unfold column_buffers. simpl. do 2 f_equal. lia.
           ++ by repeat constructor.
           ++ unfold total_cells. simpl. lia.
           ++ by rewrite app_nil_r.
        -- unfold total_cells. simpl. lia.
      * f_equal. lia.
      * unfold read_column, read_buffer. simpl.
        rewrite lookup_app_l by (rewrite length_app; simpl; lia).
        rewrite list_lookup_middle by done. simpl.
        rewrite list_lookup_middle by (rewrite length_app; simpl; lia).
        done.
    + apply Nat.leb_gt in Em. split; [done|]. split; [lia|].
      exists 1. unfold device_free, read_buffer. simpl.
      rewrite list_lookup_middle by done. simpl.
      split; simpl.
      * replace (length (heap w)) with (length (heap w) + 0) at 1 by lia.
        by rewrite insert_app_r.
      * lia.
      * by rewrite app_nil_r.
  - repeat split.
    + exists [mk_buffer d mr s]. split.
      * split; simpl; auto.
        -- by repeat constructor.
        -- unfold total_cells. simpl. lia.
        -- by rewrite app_nil_r.
      * unfold total_cells. simpl. lia.
    + unfold read_column, read_buffer. simpl.
      by rewrite list_lookup_middle.
Qed.

(** ** Building the columns of a table *)

Section build_columns.
Variable f : column_view -> M column.
Variable tag : device_buffer -> Prop.
(** What relates a source column and the one built from it. *)
Variable R : list (option device_buffer) -> column_view -> column -> Prop.
(** When a source can be read, and the cells its copy takes. *)
Variable ready : list (option device_buffer) -> column_view -> Prop.
Variable cost : list (option device_buffer) -> column_view -> nat.

Hypothesis f_spec : forall c w,
  match f c w with
  | (w', inr c') =>
      (exists bs, built tag [] w w' (column_buffers c') bs /\
                  total_cells bs = cost (heap w) c) /\
      R (heap w') c c'
  | (w', inl e) =>
      (exists k, rolled_back [] w w' k) /\
      (e = cuda_error \/ e = bad_alloc) /\
      ~ (ready (heap w) c /\ cost (heap w) c <= free_cells w)
  end.
Hypothesis R_mono : forall h ext c c', R h c c' -> R (h ++ ext) c c'.
Hypothesis ready_mono : forall h ext c,
  ready h c -> ready (h ++ ext) c /\ cost (h ++ ext) c = cost h c.

Lemma total_cost_mono h ext cs :
  Forall (ready h) cs ->
  Forall (ready (h ++ ext)) cs /\ total_cost cost (h ++ ext) cs = total_cost cost h cs.
Proof.
  unfold total_cost. induction 1 as [|c cs Hc _ [IH1 IH2]]; simpl; [done|].
  destruct (ready_mono h ext c Hc) as [Hr Hk].
  split; [by constructor|]. by rewrite Hk, IH2.
Qed.

Lemma build_columns_spec cs : forall w,
  match build_columns f cs w with
  | (w', inr cols) =>
      (exists bs, built tag [] w w' (flat_map column_buffers cols) bs /\
                  (Forall (ready (heap w)) cs ->
                   total_cells bs = total_cost cost (heap w) cs)) /\
      Forall2 (R (heap w')) cs cols
  | (w', inl e) =>
      (exists k, rolled_back [] w w' k) /\
      (e = cuda_error \/ e = bad_alloc) /\
      ~ (Forall (ready (heap w)) cs /\ total_cost cost (heap w) cs <= free_cells w)
  end.
Proof.
  induction cs as [|c cs' IH]; intros w; simpl.
  - unfold ret. split; [|constructor].
    exists []. split; [apply built_nil|done].
  - unfold bind at 1. specialize (f_spec c w).
    destruct (f c w) as [w1 [e|c1]].
    + destruct f_spec as (Hrb & He & Hn). split; [done|]. split; [done|].
      intros [HF Hle]. apply Hn. inversion HF; subst. split; [done|].
      unfold total_cost in Hle. simpl in Hle. lia.
    + destruct f_spec as [(bs1 & Hb1 & Hc1) HR1].
      unfold bind, unwind. specialize (IH w1).
      pose proof (built_heap _ _ _ _ _ _ Hb1) as Hh1.
      pose proof (built_free _ _ _ _ _ _ Hb1) as Hf1.
      destruct (build_columns f cs' w1) as [w2 [e|rest]].
      * destruct IH as ([k Hrb] & He & Hn). split; [|split; [done|]].
        -- exists (length bs1 + k).
           apply (built_rolled_back _ _ _ _ _ _ _ _ _ Hb1 Hrb).
        -- intros [HF Hle]. apply Hn. inversion HF as [|? ? Hc HF']; subst.
           rewrite Hh1.
           destruct (total_cost_mono (heap w) (map Some bs1) cs' HF') as [Hr Hk].
           split; [done|]. rewrite Hk.
           unfold total_cost in Hle. simpl in Hle.
           fold (total_cost cost (heap w) cs') in Hle. lia.
      * destruct IH as [(bs2 & Hb2 & Hc2) HR2]. unfold ret.
        pose proof (built_heap _ _ _ _ _ _ Hb2) as Hh2.
        split.
        -- exists (bs1 ++ bs2). split.
           ++ apply (built_app _ _ _ _ _ _ _ _ _ _ Hb1 Hb2).
           ++ intros HF. inversion HF as [|? ? Hc HF']; subst.
              rewrite total_cells_app, Hc1.
              destruct (total_cost_mono (heap w) (map Some bs1) cs' HF')
                as [Hr Hk].
              rewrite Hh1 in Hc2. rewrite (Hc2 Hr), Hk. done.
        -- constructor; [|done]. rewrite Hh2. by apply R_mono.
Qed.

Lemma build_table_spec p amr astream input rows w :
  match build_table p amr astream f input rows w with
  | (w', inr t) =>
      (exists bs,
          built tag [mk_invocation p amr astream None] w w'
            (flat_map column_buffers (columns t)) bs /\
          (Forall (ready (heap w)) (columns input) ->
           total_cells bs = total_cost cost (heap w) (columns input))) /\
      Forall2 (R (heap w')) (columns input) (columns t) /\
      num_rows t = rows
  | (w', inl e) =>
      (exists k, rolled_back [mk_invocation p amr astream (Some e)] w w' k) /\
      (e = cuda_error \/ e = bad_alloc) /\
      ~ (Forall (ready (heap w)) (columns input) /\
         total_cost cost (heap w) (columns input) <= free_cells w)
  end.
Proof.
  unfold build_table, invoke, bind.
  pose proof (build_columns_spec (columns input) w) as H.
  destruct (build_columns f (columns input) w) as [w1 [e|cols]]; simpl.
  - destruct H as ([k [Hh Hf Ht]] & He & Hn). split; [|done].
    exists k. split; simpl; auto. by rewrite Ht, app_nil_r.
  - destruct H as [(bs & [Hh Hi Hg Hf Ht] & Hc) HR]. split; [|done].
    exists bs. split; [|done]. split; simpl; auto.
    by rewrite Ht, app_nil_r.
Qed.
End build_columns.

(** *** Repetition and tiling *)

Lemma derive_column_spec f g mr s c w :
  match derive_column f g mr s c w with
  | (w', inr c') =>
      (exists bs, built (via mr s) [] w w' (column_buffers c') bs /\
                  total_cells bs = derive_cost f (heap w) c) /\
      derived f g (heap w') c c'
  | (w', inl e) =>
      (exists k, rolled_back [] w w' k) /\
      (e = cuda_error \/ e = bad_alloc) /\
      ~ (readable (heap w) c /\ derive_cost f (heap w) c <= free_cells w)
  end.
Proof.
  unfold derive_column, bind, fetch_column, derive_cost, readable.
  destruct (read_column (heap w) c) as [[d m]|] eqn:Er; simpl.
  - pose proof (make_column_spec (col_type c) (g (col_size c)) (f d)
                  (option_map f m) mr s w) as H.
    destruct (make_column _ _ _ _ _ _ w) as [w' [e|c']].
    + destruct H as (-> & Hlt & Hrb). split; [done|]. split; [by right|]. lia.
    + destruct H as (Hb & Ht & Hs & _ & Hr). split; [done|].
      split; [done|]. split; [done|]. exists d, m. split; [|done].
      destruct Hb as (bs & [Hh _ _ _ _] & _). rewrite Hh.
      by apply read_column_app_l.
  - split; [exists 0; apply rolled_back_refl|]. split; [by left|].
    intros [[x Hx] _]. done.
Qed.

Lemma derived_mono f g h ext c c' :
  derived f g h c c' -> derived f g (h ++ ext) c c'.
Proof.
  intros (Ht & Hs & d & m & H1 & H2). split; [done|]. split; [done|].
  exists d, m. split; by apply read_column_app_l.
Qed.

Lemma readable_mono f h ext c :
  readable h c ->
  readable (h ++ ext) c /\ derive_cost f (h ++ ext) c = derive_cost f h c.
Proof.
  intros [dm H]. unfold readable, derive_cost.
  by rewrite (read_column_app_l _ ext _ _ H), H.
Qed.

(** *** Empty-like *)

Lemma empty_like_column_spec c w :
  match empty_like_column c w with
  | (w', inr c') =>
      (exists bs, built (via get_default_resource default_stream) [] w w'
                    (column_buffers c') bs /\
                  total_cells bs = 0) /\
      emptied (heap w') c c'
  | (w', inl e) =>
      (exists k, rolled_back [] w w' k) /\
      (e = cuda_error \/ e = bad_alloc) /\ ~ (True /\ 0 <= free_cells w)
  end.
Proof.
  unfold empty_like_column.
  pose proof (make_column_spec (col_type c) 0 []
                (option_map (fun _ => []) (col_null_mask c))
                get_default_resource default_stream w) as H.
  destruct (make_column _ _ _ _ _ _ w) as [w' [e|c']].
  - destruct H as (_ & Hlt & _). exfalso.
    unfold cells_needed in Hlt. destruct (col_null_mask c); simpl in Hlt; lia.
  - destruct H as ((bs & Hb & Hc) & Ht & Hs & _ & Hr). split; [|done].
    exists bs. split; [done|]. rewrite Hc. unfold cells_needed.
    by destruct (col_null_mask c).
Qed.

Lemma emptied_mono h ext c c' : emptied h c c' -> emptied (h ++ ext) c c'.
Proof.
  intros (Ht & Hs & Hr). split; [done|]. split; [done|].
  by apply read_column_app_l.
Qed.

(** ** The two paths of the cross join *)

Lemma cross_join_paths left right mr stream :
  detail.cross_join left right mr stream =
  if 0 =? num_columns left then throw (logic_error "Left table is empty")
  else if 0 =? num_columns right then throw (logic_error "Right table is empty")
  else if (0 =? num_rows left) || (0 =? num_rows right)
       then stitched (empty_like left) (empty_like right)
       else stitched (detail_repeat left (mk_scalar (num_rows right)) mr stream)
                     (tile right (num_rows left) mr).
Proof.
  unfold detail.cross_join, CUDF_EXPECTS.
  destruct (0 =? num_columns left); [done|].
  destruct (0 =? num_columns right); done.
Qed.

Lemma make_unique_table_eq cols w :
  make_unique_table cols w =
  (mk_world (heap w) (free_cells w)
     (trace w ++ [mk_invocation prim_table None None None]),
   inr (mk_table cols (first_size cols))).
Proof. done. Qed.

(** The result of a stitch is the first failure met, or the table made of
    both results; nothing is tried twice. *)
Lemma stitched_cases m1 m2 w :
  match stitched m1 m2 w with
  | (w', inr t) =>
      exists w1 t1 w2 t2,
        m1 w = (w1, inr t1) /\ m2 w1 = (w2, inr t2) /\
        make_unique_table (columns t1 ++ columns t2) w2 = (w', inr t)
  | (w', inl e) =>
      m1 w = (w', inl e) \/
      exists w1 t1 w2,
        m1 w = (w1, inr t1) /\ m2 w1 = (w2, inl e) /\
        w' = destroy_columns (columns t1) w2
  end.
Proof.
  unfold stitched, bind, unwind, release.
  destruct (m1 w) as [w1 [e|t1]]; [by left|].
  destruct (m2 w1) as [w2 [e|t2]] eqn:E2.
  - right. exists w1, t1, w2. auto.
  - rewrite make_unique_table_eq. exists w1, t1, w2, t2.
    by rewrite make_unique_table_eq.
Qed.

Lemma detail_repeat_spec input count mr s w :
  match detail_repeat input count mr s w with
  | (w', inr t) =>
      (exists bs,
          built (via mr s) [mk_invocation prim_repeat (Some mr) (Some s) None]
            w w' (flat_map column_buffers (columns t)) bs /\
          (Forall (readable (heap w)) (columns input) ->
           total_cells bs = repeat_cost (value count) (heap w) input)) /\
      Forall2 (derived (repeat_cells (value count)) (fun n => n * value count)
                 (heap w')) (columns input) (columns t) /\
      num_rows t = num_rows input * value count
  | (w', inl e) =>
      (exists k, rolled_back
                   [mk_invocation prim_repeat (Some mr) (Some s) (Some e)]
                   w w' k) /\
      (e = cuda_error \/ e = bad_alloc) /\
      ~ (Forall (readable (heap w)) (columns input) /\
         repeat_cost (value count) (heap w) input <= free_cells w)
  end.
Proof.
  apply (build_table_spec _ (via mr s) _ readable
           (derive_cost (repeat_cells (value count)))).
  - intros c w0. apply derive_column_spec.
  - apply derived_mono.
  - apply readable_mono.
Qed.

Lemma tile_spec input count mr w :
  match tile input count mr w with
  | (w', inr t) =>
      (exists bs,
          built (via mr default_stream)
            [mk_invocation prim_tile (Some mr) None None]
            w w' (flat_map column_buffers (columns t)) bs /\
          (Forall (readable (heap w)) (columns input) ->
           total_cells bs = tile_cost count (heap w) input)) /\
      Forall2 (derived (tile_cells count) (fun n => n * count) (heap w'))
        (columns input) (columns t) /\
      num_rows t = num_rows input * count
  | (w', inl e) =>
      (exists k, rolled_back [mk_invocation prim_tile (Some mr) None (Some e)]
                   w w' k) /\
      (e = cuda_error \/ e = bad_alloc) /\
      ~ (Forall (readable (heap w)) (columns input) /\
         tile_cost count (heap w) input <= free_cells w)
  end.
Proof.
  apply (build_table_spec _ (via mr default_stream) _ readable
           (derive_cost (tile_cells count))).
  - intros c w0. apply derive_column_spec.
  - apply derived_mono.
  - apply readable_mono.
Qed.

Lemma empty_like_spec input w :
  exists w' t bs,
    empty_like input w = (w', inr t) /\
    built (via get_default_resource default_stream)
      [mk_invocation prim_empty_like None None None]
      w w' (flat_map column_buffers (columns t)) bs /\
    total_cells bs = 0 /\
    Forall2 (emptied (heap w')) (columns input) (columns t) /\
    num_rows t = 0.
Proof.
  pose proof (build_table_spec empty_like_column
                (via get_default_resource default_stream) emptied
                (fun _ _ => True) (fun _ _ => 0) empty_like_column_spec
                emptied_mono (fun _ _ _ _ => conj I eq_refl)
                prim_empty_like None None input 0 w) as H.
  fold (empty_like input) in H.
  assert (HT : Forall (fun _ : column_view => True) (columns input))
    by (apply Forall_forall; done).
  assert (H0 : forall h cs, total_cost (fun _ _ => 0) h cs = 0).
  { intros h cs. unfold total_cost. induction cs; simpl; auto. }
  destruct (empty_like input w) as [w' [e|t]].
  - destruct H as (_ & _ & Hn). exfalso. apply Hn. split; [done|].
    rewrite H0. lia.
  - destruct H as ((bs & Hb & Hc) & HR & Hn). exists w', t, bs.
    split; [done|]. split; [done|]. split; [|done].
    rewrite (Hc HT). apply H0.
Qed.

Lemma built_logged tag w ev :
  built tag [ev] w (mk_world (heap w) (free_cells w) (trace w ++ [ev])) [] [].
Proof. split; simpl; rewrite ?app_nil_r; auto. Qed.

Lemma tile_cost_mono k h ext t :
  Forall (readable h) (columns t) ->
  Forall (readable (h ++ ext)) (columns t) /\
  tile_cost k (h ++ ext) t = tile_cost k h t.
Proof. apply total_cost_mono, readable_mono. Qed.

(** The general path: both tables have rows. *)
Lemma general_path_outcome left right mr s w :
  match stitched (detail_repeat left (mk_scalar (num_rows right)) mr s)
                 (tile right (num_rows left) mr) w with
  | (w', inr t) =>
      exists cl cr bs,
        columns t = cl ++ cr /\ num_rows t = first_size (cl ++ cr) /\
        built (through mr)
          [ev_ok prim_repeat (Some mr) (Some s); ev_ok prim_tile (Some mr) None;
           ev_ok prim_table None None]
          w w' (flat_map column_buffers (columns t)) bs /\
        (Forall (readable (heap w)) (columns left) ->
         Forall (readable (heap w)) (columns right) ->
         total_cells bs = repeat_cost (num_rows right) (heap w) left +
                          tile_cost (num_rows left) (heap w) right) /\
        Forall2 (derived (repeat_cells (num_rows right))
                   (fun n => n * num_rows right) (heap w'))
          (columns left) cl /\
        Forall2 (derived (tile_cells (num_rows left))
                   (fun n => n * num_rows left) (heap w'))
          (columns right) cr
  | (w', inl e) =>
      (exists k evs,
          rolled_back evs w w' k /\
          (evs = [ev_failed prim_repeat (Some mr) (Some s) e] \/
           evs = [ev_ok prim_repeat (Some mr) (Some s);
                  ev_failed prim_tile (Some mr) None e])) /\
      (e = cuda_error \/ e = bad_alloc) /\
      ~ (Forall (readable (heap w)) (columns left) /\
         Forall (readable (heap w)) (columns right) /\
         repeat_cost (num_rows right) (heap w) left +
         tile_cost (num_rows left) (heap w) right <= free_cells w)
  end.
Proof.
  pose proof (stitched_cases
                (detail_repeat left (mk_scalar (num_rows right)) mr s)
                (tile right (num_rows left) mr) w) as H.
  destruct (stitched _ _ w) as [w' [e|t]].
  - destruct H as [H1|(w1 & t1 & w2 & H1 & H2 & ->)].
    + pose proof (detail_repeat_spec left (mk_scalar (num_rows right)) mr s w)
        as S1. rewrite H1 in S1. simpl in S1.
      destruct S1 as ([k Hrb] & He & Hn). split; [|split; [done|]].
      * exists k, [ev_failed prim_repeat (Some mr) (Some s) e]. auto.
      * intros (HL & HR & Hle). apply Hn. split; [done|]. lia.
    + pose proof (detail_repeat_spec left (mk_scalar (num_rows right)) mr s w)
        as S1. rewrite H1 in S1. simpl in S1.
      destruct S1 as ((bl & Hbl & Hcl) & _ & _).
      pose proof (tile_spec right (num_rows left) mr w1) as S2.
      rewrite H2 in S2. destruct S2 as ([k Hrb] & He & Hn).
      split; [|split; [done|]].
      * exists (length bl + k),
          [ev_ok prim_repeat (Some mr) (Some s);
           ev_failed prim_tile (Some mr) None e].
        split; [|by right]. rewrite destroy_columns_flat.
        apply (built_rolled_back _ _ _ _ _ _ _ _ _ Hbl Hrb).
      * intros (HL & HR & Hle). apply Hn.
        rewrite (built_heap _ _ _ _ _ _ Hbl).
        destruct (tile_cost_mono (num_rows left) (heap w) (map Some bl) right HR)
          as [Hr' Hk].
        split; [done|]. rewrite Hk.
        pose proof (built_free _ _ _ _ _ _ Hbl). specialize (Hcl HL). lia.
  - destruct H as (w1 & t1 & w2 & t2 & H1 & H2 & H3).
    rewrite make_unique_table_eq in H3. injection H3 as <- <-.
    pose proof (detail_repeat_spec left (mk_scalar (num_rows right)) mr s w)
      as S1. rewrite H1 in S1. simpl in S1.
    destruct S1 as ((bl & Hbl & Hcl) & HRl & _).
    pose proof (tile_spec right (num_rows left) mr w1) as S2.
    rewrite H2 in S2. destruct S2 as ((br & Hbr & Hcr) & HRr & _).
    exists (columns t1), (columns t2), ((bl ++ br) ++ []).
    split; [done|]. split; [done|]. simpl. split; [|split; [|split]].
    + rewrite flat_map_app.
      rewrite <- (app_nil_r (flat_map column_buffers (columns t1) ++ _)).
      apply (built_app _ [_; _] [_] _ w2).
      * apply (built_app _ [_] [_] _ w1).
        -- eapply built_weaken; [|exact Hbl]. by intros b [? _].
        -- eapply built_weaken; [|exact Hbr]. by intros b [? _].
      * apply built_logged.
    + intros HL HR. rewrite app_nil_r, total_cells_app, (Hcl HL).
      rewrite (built_heap _ _ _ _ _ _ Hbl) in Hcr.
      destruct (tile_cost_mono (num_rows left) (heap w) (map Some bl) right HR)
        as [Hr' Hk].
      by rewrite (Hcr Hr'), Hk.
    + rewrite (built_heap _ _ _ _ _ _ Hbr).
      eapply Forall2_impl; [exact HRl|]. intros c c'. apply derived_mono.
    + done.
Qed.

(** The empty path: one of the tables has no rows.  It cannot fail. *)
Lemma empty_path_outcome left right w :
  exists w' t cl cr bs,
    stitched (empty_like left) (empty_like right) w = (w', inr t) /\
    columns t = cl ++ cr /\ num_rows t = first_size (cl ++ cr) /\
    built (via get_default_resource default_stream)
      [ev_ok prim_empty_like None None; ev_ok prim_empty_like None None;
       ev_ok prim_table None None]
      w w' (flat_map column_buffers (columns t)) bs /\
    total_cells bs = 0 /\
    Forall2 (emptied (heap w')) (columns left) cl /\
    Forall2 (emptied (heap w')) (columns right) cr.
Proof.
  destruct (empty_like_spec left w) as (w1 & t1 & bl & E1 & Hbl & Hcl & HRl & _).
  destruct (empty_like_spec right w1) as (w2 & t2 & br & E2 & Hbr & Hcr & HRr & _).
  exists (mk_world (heap w2) (free_cells w2)
            (trace w2 ++ [ev_ok prim_table None None])),
    (mk_table (columns t1 ++ columns t2) (first_size (columns t1 ++ columns t2))),
    (columns t1), (columns t2), ((bl ++ br) ++ []).
  split; [|split; [done|split; [done|split; [|split; [|split]]]]].
  - unfold stitched, bind, unwind, release. rewrite E1, E2.
    apply make_unique_table_eq.
  - simpl. rewrite flat_map_app.
    rewrite <- (app_nil_r (flat_map column_buffers (columns t1) ++ _)).
    apply (built_app _ [_; _] [_] _ w2).
    + by apply (built_app _ [_] [_] _ w1).
    + apply built_logged.
  - rewrite app_nil_r, total_cells_app. lia.
  - simpl. rewrite (built_heap _ _ _ _ _ _ Hbr).
    eapply Forall2_impl; [exact HRl|]. intros c c'. apply emptied_mono.
  - done.
Qed.

(** ** Rows of the result *)

Lemma table_ok_Forall h t :
  table_ok h t = true <->
  Forall (fun c => column_ok h (num_rows t) c = true) (columns t).
Proof. unfold table_ok. rewrite forallb_forall, Forall_forall.
       split; intros H c Hc; apply H; by apply list_elem_of_In. Qed.

Lemma column_ok_inv h n c :
  column_ok h n c = true ->
  col_size c = n /\
  exists d m, read_column h c = Some (d, m) /\ length d = n /\
              match m with Some x => length x = n | None => True end.
Proof.
  unfold column_ok. intros H. apply andb_true_iff in H as [Hs H].
  apply Nat.eqb_eq in Hs. split; [done|].
  destruct (read_column h c) as [[d [m|]]|]; [| |done].
  - apply andb_true_iff in H as [Hd Hm].
    apply Nat.eqb_eq in Hd, Hm. by exists d, (Some m).
  - apply Nat.eqb_eq in H. by exists d, None.
Qed.

Lemma column_ok_readable h n c : column_ok h n c = true -> readable h c.
Proof. intros H. apply column_ok_inv in H as (_ & d & m & H & _). by eexists. Qed.

Lemma table_ok_readable h t :
  table_ok h t = true -> Forall (readable h) (columns t).
Proof.
  rewrite table_ok_Forall. intros H. eapply Forall_impl; [exact H|].
  intros c. apply column_ok_readable.
Qed.

Lemma Forall2_map_eq {A B C} (f : A -> C) (g : B -> C) l l' :
  Forall2 (fun a b => g b = f a) l l' -> map g l' = map f l.
Proof. induction 1; simpl; congruence. Qed.

Lemma derived_repeat_element k g h c c' i :
  0 < k -> derived (repeat_cells k) g h c c' ->
  element h c' i = element h c (i / k).
Proof.
  intros Hk (_ & _ & d & m & Hr & Hr'). unfold element. rewrite Hr, Hr'.
  destruct m as [m|]; simpl; by rewrite ?lookup_repeat_cells.
Qed.

Lemma derived_tile_element k g h n c c' i :
  column_ok h n c = true -> i < k * n ->
  derived (tile_cells k) g h c c' ->
  element h c' i = element h c (i mod n).
Proof.
  intros Hok Hi (_ & _ & d & m & Hr & Hr').
  apply column_ok_inv in Hok as (_ & d0 & m0 & Hr0 & Hd & Hm).
  rewrite Hr in Hr0. injection Hr0 as <- <-.
  unfold element. rewrite Hr, Hr'.
  destruct m as [m|]; simpl.
  - rewrite !lookup_tile_cells by lia. by rewrite Hd, Hm.
  - rewrite lookup_tile_cells by lia. by rewrite Hd.
Qed.

Lemma column_ok_app_l h ext n c :
  column_ok h n c = true -> column_ok (h ++ ext) n c = true.
Proof.
  intros H. pose proof (column_ok_readable _ _ _ H) as [dm Hr].
  unfold column_ok in *. rewrite Hr in H.
  by rewrite (read_column_app_l _ ext _ _ Hr).
Qed.

Lemma row_app_l h ext t i :
  Forall (readable h) (columns t) -> row (h ++ ext) t i = row h t i.
Proof.
  unfold row. induction 1 as [|c cs Hc _ IH]; simpl; [done|].
  by rewrite IH, element_app_l.
Qed.

(** ** The cells a cross join takes *)

Lemma derive_cost_ok f k h n c :
  (forall l : list Z, length (f l) = length l * k) ->
  column_ok h n c = true ->
  derive_cost f h c = n * k * length (column_buffers c).
Proof.
  intros Hf Hok. pose proof Hok as Hok'.
  apply column_ok_inv in Hok as (_ & d & m & Hr & Hd & Hm).
  unfold derive_cost, cells_needed, column_buffers. rewrite Hr.
  unfold read_column in Hr.
  destruct (read_buffer h (col_data c)); [|done].
  destruct (col_null_mask c) as [j|].
  - destruct (read_buffer h j); [|done]. injection Hr as <- <-. simpl.
    rewrite !Hf, Hd, Hm. lia.
  - injection Hr as <- <-. simpl. rewrite Hf, Hd. lia.
Qed.

Lemma total_cost_ok f k h t :
  (forall l : list Z, length (f l) = length l * k) ->
  table_ok h t = true ->
  total_cost (derive_cost f) h (columns t) = num_rows t * k * buffer_count t.
Proof.
  intros Hf. rewrite table_ok_Forall. unfold total_cost, buffer_count.
  induction 1 as [|c cs Hc _ IH]; cbn [map list_sum flat_map]; [simpl; lia|].
  change (list_sum (?a :: ?l)) with (a + list_sum l).
  rewrite length_app, IH, (derive_cost_ok f k h _ c Hf Hc). lia.
Qed.

Lemma general_cost_ok h left right :
  table_ok h left = true -> table_ok h right = true ->
  repeat_cost (num_rows right) h left + tile_cost (num_rows left) h right
  = cross_join_cells left right.
Proof.
  intros Hl Hr. unfold repeat_cost, tile_cost, cross_join_cells.
  rewrite (total_cost_ok _ (num_rows right) h left) by
    (done || apply length_repeat_cells).
  rewrite (total_cost_ok _ (num_rows left) h right) by
    (done || apply length_tile_cells).
  lia.
Qed.

(** ** Shape of the built tables *)

Lemma read_column_buffers h c d m :
  read_column h c = Some (d, m) ->
  length (column_buffers c) = S (match m with Some _ => 1 | None => 0 end).
Proof.
  unfold read_column, column_buffers.
  destruct (read_buffer h (col_data c)); [|done].
  destruct (col_null_mask c) as [j|].
  - destruct (read_buffer h j); [|done]. by intros [= <- <-].
  - by intros [= <- <-].
Qed.

Lemma derived_column_ok f g k h n c c' :
  (forall l : list Z, length (f l) = length l * k) ->
  (forall x, g x = x * k) ->
  column_ok h n c = true -> derived f g h c c' ->
  column_ok h (n * k) c' = true /\
  length (column_buffers c') = length (column_buffers c).
Proof.
  intros Hf Hg Hok (Ht & Hs & d & m & Hr & Hr').
  apply column_ok_inv in Hok as (Hn & d0 & m0 & Hr0 & Hd & Hm).
  rewrite Hr in Hr0. injection Hr0 as <- <-. split.
  - unfold column_ok. rewrite Hr', Hs, Hg, Hn, Nat.eqb_refl. simpl.
    destruct m as [m|]; simpl; rewrite !Hf, ?Hd, ?Hm, !Nat.eqb_refl; done.
  - rewrite (read_column_buffers _ _ _ _ Hr), (read_column_buffers _ _ _ _ Hr').
    by destruct m.
Qed.

Lemma emptied_column_ok h c c' :
  emptied h c c' ->
  column_ok h 0 c' = true /\
  length (column_buffers c') = length (column_buffers c).
Proof.
  intros (Ht & Hs & Hr). split.
  - unfold column_ok. rewrite Hr, Hs. by destruct (col_null_mask c).
  - rewrite (read_column_buffers _ _ _ _ Hr). unfold column_buffers.
    by destruct (col_null_mask c).
Qed.

(** What the columns built from [cs] look like, given what each pair of a
    source and its copy satisfies. *)
Lemma built_columns_shape (Rel : column_view -> column -> Prop)
    (P : column_view -> Prop) h n cs cols :
  (forall c c', P c -> Rel c c' ->
     col_type c' = col_type c /\ column_ok h n c' = true /\
     length (column_buffers c') = length (column_buffers c)) ->
  Forall P cs -> Forall2 Rel cs cols ->
  map col_type cols = map col_type cs /\
  Forall (fun c' => column_ok h n c' = true) cols /\
  length (flat_map column_buffers cols) = length (flat_map column_buffers cs) /\
  length cols = length cs.
Proof.
  intros Hstep HP H2. revert HP.
  induction H2 as [|c c' cs cols Hc _ IH]; intros HP; [done|].
  inversion HP as [|? ? Pc Pcs]; subst.
  destruct (Hstep c c' Pc Hc) as (Ht & Hok & Hb).
  destruct (IH Pcs) as (IHt & IHok & IHb & IHl).
  cbn [map flat_map length].
  rewrite Ht, IHt, !length_app, Hb, IHb, IHl.
  split; [done|]. split; [by constructor|]. done.
Qed.

Lemma first_size_ok h n cols :
  Forall (fun c => column_ok h n c = true) cols -> 0 < length cols ->
  first_size cols = n.
Proof.
  intros H Hl. destruct cols as [|c cols]; simpl in *; [lia|].
  inversion H as [|? ? Hc _]; subst. by apply column_ok_inv in Hc as [? _].
Qed.

Lemma first_size_app cl cr : 0 < length cl -> first_size (cl ++ cr) = first_size cl.
Proof. destruct cl; simpl; [lia|done]. Qed.

(** ** A successful cross join *)

Lemma Forall2_with {A B} (P : A -> Prop) (Rel : A -> B -> Prop) l l' :
  Forall P l -> Forall2 Rel l l' -> Forall2 (fun a b => P a /\ Rel a b) l l'.
Proof.
  intros HP H2. revert HP. induction H2; intros HP; [constructor|].
  inversion HP; subst. constructor; auto.
Qed.

Lemma table_ok_app_l h ext t :
  table_ok h t = true ->
  Forall (fun c => column_ok (h ++ ext) (num_rows t) c = true) (columns t).
Proof.
  rewrite table_ok_Forall. intros H. eapply Forall_impl; [exact H|].
  intros c. apply column_ok_app_l.
Qed.

Lemma general_path_success left right mr s w :
  table_ok (heap w) left = true -> table_ok (heap w) right = true ->
  0 < num_columns left -> 0 < num_rows right ->
  cross_join_cells left right <= free_cells w ->
  exists w' t bs,
    stitched (detail_repeat left (mk_scalar (num_rows right)) mr s)
             (tile right (num_rows left) mr) w = (w', inr t) /\
    joined left right (through mr)
      [ev_ok prim_repeat (Some mr) (Some s); ev_ok prim_tile (Some mr) None;
       ev_ok prim_table None None] w w' t bs.
Proof.
  intros HL HR Hp Hn Hfree.
  pose proof (general_path_outcome left right mr s w) as H.
  pose proof (table_ok_readable _ _ HL) as RL.
  pose proof (table_ok_readable _ _ HR) as RR.
  pose proof (general_cost_ok _ _ _ HL HR) as Hcost.
  destruct (stitched _ _ w) as [w' [e|t]].
  { destruct H as (_ & _ & Hno). exfalso. apply Hno. rewrite Hcost. auto. }
  destruct H as (cl & cr & bs & Hcols & Hrows & Hb & Hc & Dl & Dr).
  exists w', t, bs. split; [done|].
  pose proof (built_heap _ _ _ _ _ _ Hb) as Hh.
  pose proof (table_ok_app_l _ (map Some bs) _ HL) as OL.
  pose proof (table_ok_app_l _ (map Some bs) _ HR) as OR.
  rewrite <- Hh in OL, OR.
  destruct (built_columns_shape _ _ (heap w')
              (num_rows left * num_rows right) _ _
              (fun c c' Hc Hd =>
                 let '(conj a b) :=
                   derived_column_ok _ _ (num_rows right) _ _ c c'
                     (length_repeat_cells _) (fun x => eq_refl) Hc Hd in
                 conj (proj1 Hd) (conj a b)) OL Dl)
    as (Tl & Okl & Bl & Ll).
  destruct (built_columns_shape _ _ (heap w')
              (num_rows right * num_rows left) _ _
              (fun c c' Hc Hd =>
                 let '(conj a b) :=
                   derived_column_ok _ _ (num_rows left) _ _ c c'
                     (length_tile_cells _) (fun x => eq_refl) Hc Hd in
                 conj (proj1 Hd) (conj a b)) OR Dr)
    as (Tr & Okr & Br & Lr).
  rewrite (Nat.mul_comm (num_rows right)) in Okr.
  assert (Hrows' : num_rows t = num_rows left * num_rows right).
  { rewrite Hrows, first_size_app by (rewrite Ll; exact Hp).
    apply (first_size_ok (heap w')); [done|]. rewrite Ll. exact Hp. }
  split.
  - done.
  - rewrite (Hc RL RR). done.
  - apply table_ok_Forall. rewrite Hcols, Hrows'. by apply Forall_app.
  - done.
  - unfold num_columns. rewrite Hcols, length_app, Ll, Lr. done.
  - unfold schema. rewrite Hcols, map_app, Tl, Tr. done.
  - unfold buffer_count. rewrite Hcols, flat_map_app, length_app, Bl, Br. done.
  - intros i Hi. unfold row at 1. rewrite Hcols, map_app. f_equal.
    + rewrite <- (row_app_l (heap w) (map Some bs)) by done. rewrite <- Hh.
      apply Forall2_map_eq. eapply Forall2_impl; [exact Dl|].
      intros c c' Hd. eapply derived_repeat_element; eauto.
    + rewrite <- (row_app_l (heap w) (map Some bs)) by done. rewrite <- Hh.
      apply Forall2_map_eq.
      eapply Forall2_impl; [exact (Forall2_with _ _ _ _ OR Dr)|].
      intros c c' [Hok Hd].
      eapply derived_tile_element; eauto; lia.
Qed.

Lemma empty_path_success left right w :
  num_rows left = 0 \/ num_rows right = 0 ->
  exists w' t bs,
    stitched (empty_like left) (empty_like right) w = (w', inr t) /\
    joined left right (via get_default_resource default_stream)
      [ev_ok prim_empty_like None None; ev_ok prim_empty_like None None;
       ev_ok prim_table None None] w w' t bs.
Proof.
  intros Hz.
  destruct (empty_path_outcome left right w)
    as (w' & t & cl & cr & bs & E & Hcols & Hrows & Hb & Hc & El & Er).
  exists w', t, bs. split; [done|].
  assert (Hmn : num_rows left * num_rows right = 0) by (destruct Hz; nia).
  assert (Hany : forall cs, Forall (fun _ : column_view => True) cs)
    by (intros cs; apply Forall_forall; done).
  destruct (built_columns_shape _ (fun _ => True) (heap w') 0 _ _
              (fun c c' _ Hd =>
                 let '(conj a b) := emptied_column_ok _ c c' Hd in
                 conj (proj1 Hd) (conj a b)) (Hany _) El)
    as (Tl & Okl & Bl & Ll).
  destruct (built_columns_shape _ (fun _ => True) (heap w') 0 _ _
              (fun c c' _ Hd =>
                 let '(conj a b) := emptied_column_ok _ c c' Hd in
                 conj (proj1 Hd) (conj a b)) (Hany _) Er)
    as (Tr & Okr & Br & Lr).
  assert (Hok : Forall (fun c => column_ok (heap w') 0 c = true) (cl ++ cr))
    by (by apply Forall_app).
  assert (Hrows' : num_rows t = 0).
  { rewrite Hrows. destruct (cl ++ cr) as [|c cs]; [done|].
    inversion Hok as [|? ? Hc0 _]; subst.
    by apply column_ok_inv in Hc0 as [? _]. }
  split.
  - done.
  - unfold cross_join_cells. rewrite Hc, Hmn. done.
  - apply table_ok_Forall. by rewrite Hcols, Hrows'.
  - by rewrite Hmn.
  - unfold num_columns. rewrite Hcols, length_app, Ll, Lr. done.
  - unfold schema. rewrite Hcols, map_app, Tl, Tr. done.
  - unfold buffer_count. rewrite Hcols, flat_map_app, length_app, Bl, Br. done.
  - intros i Hi. lia.
Qed.

Lemma joined_weaken left right (tag tag' : device_buffer -> Prop) evs w w' t bs :
  (forall b, tag b -> tag' b) ->
  joined left right tag evs w w' t bs -> joined left right tag' evs w w' t bs.
Proof.
  intros Himp [Hb ? ? ? ? ? ? ?]. split; try done.
  by apply (built_weaken tag tag').
Qed.

Lemma zero_rows_cases left right :
  (0 =? num_rows left) || (0 =? num_rows right) = true <->
  num_rows left = 0 \/ num_rows right = 0.
Proof.
  rewrite orb_true_iff, !Nat.eqb_eq. intuition.
Qed.

(** Well-formed inputs with a column each and enough free cells: the cross
    join returns. *)
Lemma cross_join_success left right mr s w :
  table_ok (heap w) left = true -> table_ok (heap w) right = true ->
  0 < num_columns left -> 0 < num_columns right ->
  cross_join_cells left right <= free_cells w ->
  exists w' t bs,
    detail.cross_join left right mr s w = (w', inr t) /\
    joined left right (through (path_resource left right mr))
      (path_events left right mr s) w w' t bs.
Proof.
  intros HL HR Hp Hq Hfree. rewrite cross_join_paths.
  unfold path_events, path_resource.
  destruct (0 =? num_columns left) eqn:E1; [apply Nat.eqb_eq in E1; lia|].
  destruct (0 =? num_columns right) eqn:E2; [apply Nat.eqb_eq in E2; lia|].
  destruct ((0 =? num_rows left) || (0 =? num_rows right)) eqn:E3.
  - apply zero_rows_cases in E3.
    destruct (empty_path_success left right w E3) as (w' & t & bs & E & J).
    exists w', t, bs. split; [done|].
    eapply joined_weaken; [|exact J]. by intros b [? _].
  - apply orb_false_iff in E3 as [_ E3]. apply Nat.eqb_neq in E3.
    apply general_path_success; auto. lia.
Qed.

Lemma table_ok_row_defined h t i :
  table_ok h t = true -> i < num_rows t -> Forall is_Some (row h t i).
Proof.
  rewrite table_ok_Forall. unfold row. intros H Hi.
  induction H as [|c cs Hc _ IH]; simpl; constructor; [|done].
  apply column_ok_inv in Hc as (_ & d & m & Hr & Hd & Hm).
  unfold element. rewrite Hr.
  destruct (lookup_lt_is_Some_2 d i) as [v ->]; [lia|].
  destruct m as [m|]; [|done].
  destruct (lookup_lt_is_Some_2 m i) as [b ->]; [lia|done].
Qed.

(** ** Every call, whatever its inputs *)

Lemma built_cells_le tag evs w w' ids bs :
  built tag evs w w' ids bs -> total_cells bs <= free_cells w.
Proof. intros [_ _ _ Hf _]. lia. Qed.

Lemma cross_join_outcome left right mr s w :
  match detail.cross_join left right mr s w with
  | (w', inr t) =>
      0 < num_columns left /\ 0 < num_columns right /\
      (exists bs,
          built (through (path_resource left right mr))
            (path_events left right mr s) w w'
            (flat_map column_buffers (columns t)) bs) /\
      num_columns t = num_columns left + num_columns right /\
      (table_ok (heap w) left = true -> table_ok (heap w) right = true ->
       exists bs,
         joined left right (through (path_resource left right mr))
           (path_events left right mr s) w w' t bs)
  | (w', inl e) =>
      exists k evs,
        rolled_back evs w w' k /\
        (evs = [] /\
         (num_columns left = 0 \/ num_columns right = 0) /\
         e = logic_error (if 0 =? num_columns left
                          then "Left table is empty"
                          else "Right table is empty") \/
         (e = cuda_error \/ e = bad_alloc) /\
         (evs = [ev_failed prim_repeat (Some mr) (Some s) e] \/
          evs = [ev_ok prim_repeat (Some mr) (Some s);
                 ev_failed prim_tile (Some mr) None e]))
  end.
Proof.
  rewrite cross_join_paths. unfold path_events, path_resource.
  destruct (0 =? num_columns left) eqn:E1.
  { apply Nat.eqb_eq in E1. exists 0, []. split; [apply rolled_back_refl|].
    left. auto. }
  destruct (0 =? num_columns right) eqn:E2.
  { apply Nat.eqb_eq in E2. exists 0, []. split; [apply rolled_back_refl|].
    left. auto. }
  apply Nat.eqb_neq in E1, E2.
  destruct ((0 =? num_rows left) || (0 =? num_rows right)) eqn:E3.
  - apply zero_rows_cases in E3.
    destruct (empty_path_success left right w E3) as (w' & t & bs & -> & J).
    apply (joined_weaken _ _ _ (through get_default_resource)) in J;
      [|by intros b [? _]].
    split; [lia|]. split; [lia|].
    split; [exists bs; apply (j_built _ _ _ _ _ _ _ _ J)|].
    split; [apply (j_cols _ _ _ _ _ _ _ _ J)|]. intros _ _. by exists bs.
  - apply orb_false_iff in E3 as [E3 E4]. apply Nat.eqb_neq in E3, E4.
    pose proof (general_path_outcome left right mr s w) as H.
    pose proof (general_path_success left right mr s w) as S.
    destruct (stitched _ _ w) as [w' [e|t]].
    + destruct H as ((k & evs & Hrb & Hevs) & He & _).
      exists k, evs. split; [done|]. right. auto.
    + destruct H as (cl & cr & bs & Hcols & _ & Hb & Hc & Dl & Dr).
      split; [lia|]. split; [lia|]. split; [by exists bs|]. split.
      * unfold num_columns.
        rewrite Hcols, length_app, <- (Forall2_length _ _ _ Dl),
          <- (Forall2_length _ _ _ Dr). done.
      * intros HL HR.
        destruct S as (w2 & t2 & bs2 & [= <- <-] & J); try done; try lia.
        -- rewrite <- (general_cost_ok _ _ _ HL HR),
             <- (Hc (table_ok_readable _ _ HL) (table_ok_readable _ _ HR)).
           apply (built_cells_le _ _ _ _ _ _ Hb).
        -- by exists bs2.
Qed.

(** The example of the specification: six rows, (1,10), (1,20), (1,30),
    (2,10), (2,20), (2,30); the second row of the right table is null. *)
Example cross_join_example :
  match detail.cross_join example_left example_right 5 9 example_world with
  | (w', inr t) => map (row (heap w') t) (seq 0 (num_rows t))
  | (_, inl _) => []
  end =
  [[Some (1, None); Some (10, Some 1)]; [Some (1, None); Some (20, Some 0)];
   [Some (1, None); Some (30, Some 1)]; [Some (2, None); Some (10, Some 1)];
   [Some (2, None); Some (20, Some 0)]; [Some (2, None); Some (30, Some 1)]]%Z.
Proof. vm_compute. reflexivity. Qed.

(** With seventeen free cells the tiling fails on its second allocation;
    the two buffers allocated by then are freed and the cells are back. *)
Example cross_join_tight_example :
  detail.cross_join example_left example_right 5 9 tight_world =
  (mk_world (heap tight_world ++ [None; None]) 17
     [ev_ok prim_repeat (Some 5) (Some 9);
      ev_failed prim_tile (Some 5) None bad_alloc],
   inl bad_alloc).
Proof. vm_compute. reflexivity. Qed.

(** The handles of what a step built are all past the heap it started
    from. *)
Lemma built_fresh tag evs w w' ids bs :
  built tag evs w w' ids bs -> Forall (fun id => length (heap w) <= id) ids.
Proof.
  intros [_ -> _ _ _]. apply Forall_forall. intros id Hid.
  apply elem_of_seq in Hid. lia.
Qed.

(** * The claims *)

(** C1. Both tables well formed on the device, with at least one column and
    one row each, and enough free cells: [cross_join] returns a table whose
    row [i], for every [i] below [m * n], is row [i / n] of the left table
    followed by row [i mod n] of the right one, all elements defined. *)
Theorem cross_join_row_order left right mr s w :
  table_ok (heap w) left = true -> table_ok (heap w) right = true ->
  0 < num_columns left -> 0 < num_columns right ->
  0 < num_rows left -> 0 < num_rows right ->
  cross_join_cells left right <= free_cells w ->
  exists w' t,
    detail.cross_join left right mr s w = (w', inr t) /\
    forall i, i < num_rows left * num_rows right ->
      row (heap w') t i =
        row (heap w) left (i / num_rows right) ++
        row (heap w) right (i mod num_rows right) /\
      Forall is_Some (row (heap w') t i).
Proof.
  intros HL HR Hp Hq Hm Hn Hfree.
  destruct (cross_join_success left right mr s w HL HR Hp Hq Hfree)
    as (w' & t & bs & E & J).
  exists w', t. split; [done|]. intros i Hi.
  rewrite (j_row _ _ _ _ _ _ _ _ J i Hi). split; [done|].
  apply Forall_app. split; apply table_ok_row_defined; try done.
  - apply Nat.Div0.div_lt_upper_bound. lia.
  - apply Nat.mod_upper_bound. lia.
Qed.

Lemma cross_join_row_order_witness :
  exists w' t,
    detail.cross_join example_left example_right 5 9 example_world
    = (w', inr t) /\
    forall i, i < 2 * 3 ->
      row (heap w') t i =
        row (heap example_world) example_left (i / 3) ++
        row (heap example_world) example_right (i mod 3) /\
      Forall is_Some (row (heap w') t i).
Proof.
  apply (cross_join_row_order example_left example_right 5 9 example_world);
    try reflexivity; vm_compute; lia.
Defined.

(** C2. Under the same conditions the result has [m * n] rows and [p + q]
    columns; its first [p] columns have the element types of the left
    table's columns, in order, and its last [q] those of the right one.
    The row count is that of every column: the result satisfies the Table
    invariant on the device, each column and each of its buffers holding
    [m * n] rows, and the buffers are new ones, none an input's. *)
Theorem cross_join_shape left right mr s w :
  table_ok (heap w) left = true -> table_ok (heap w) right = true ->
  0 < num_columns left -> 0 < num_columns right ->
  0 < num_rows left -> 0 < num_rows right ->
  cross_join_cells left right <= free_cells w ->
  exists w' t,
    detail.cross_join left right mr s w = (w', inr t) /\
    num_rows t = num_rows left * num_rows right /\
    num_columns t = num_columns left + num_columns right /\
    take (num_columns left) (schema t) = schema left /\
    drop (num_columns left) (schema t) = schema right /\
    table_ok (heap w') t = true /\
    Forall (fun c => col_size c = num_rows left * num_rows right)
      (columns t) /\
    Forall (fun id => length (heap w) <= id)
      (flat_map column_buffers (columns t)).
Proof.
  intros HL HR Hp Hq Hm Hn Hfree.
  destruct (cross_join_success left right mr s w HL HR Hp Hq Hfree)
    as (w' & t & bs & E & J).
  exists w', t. split; [done|].
  split; [apply (j_rows _ _ _ _ _ _ _ _ J)|].
  split; [apply (j_cols _ _ _ _ _ _ _ _ J)|].
  rewrite (j_schema _ _ _ _ _ _ _ _ J).
  assert (Hl : num_columns left = length (schema left))
    by (unfold schema, num_columns; by rewrite length_map).
  rewrite Hl, take_app_length, drop_app_length.
  split; [done|]. split; [done|].
  pose proof (j_ok _ _ _ _ _ _ _ _ J) as Hok.
  split; [done|]. split.
  - apply table_ok_Forall in Hok. rewrite (j_rows _ _ _ _ _ _ _ _ J) in Hok.
    eapply Forall_impl; [exact Hok|]. intros c Hc.
    by apply column_ok_inv in Hc as [? _].
  - apply (built_fresh _ _ _ _ _ _ (j_built _ _ _ _ _ _ _ _ J)).
Qed.

Lemma cross_join_shape_witness :
  exists w' t,
    detail.cross_join example_left example_right 5 9 example_world
    = (w', inr t) /\
    num_rows t = 2 * 3 /\ num_columns t = 1 + 1 /\
    take 1 (schema t) = [INT32] /\ drop 1 (schema t) = [INT64] /\
    table_ok (heap w') t = true /\
    Forall (fun c => col_size c = 2 * 3) (columns t) /\
    Forall (fun id => 5 <= id) (flat_map column_buffers (columns t)).
Proof.
  apply (cross_join_shape example_left example_right 5 9 example_world);
    try reflexivity; vm_compute; lia.
Defined.

(** C3. A left or right table without columns: [cross_join] fails with
    [cudf::logic_error], the invalid-argument condition of the error
    taxonomy, whatever the row counts, and the device is exactly as before:
    no primitive was invoked and nothing was allocated. *)
Theorem cross_join_zero_columns left right mr s w :
  num_columns left = 0 \/ num_columns right = 0 ->
  detail.cross_join left right mr s w =
  (w, inl (logic_error (if 0 =? num_columns left
                        then "Left table is empty"
                        else "Right table is empty"))).
Proof.
  intros H. rewrite cross_join_paths. unfold throw.
  destruct (0 =? num_columns left) eqn:E1; [done|].
  destruct (0 =? num_columns right) eqn:E2; [done|].
  apply Nat.eqb_neq in E1, E2. lia.
Qed.

Lemma cross_join_zero_columns_witness :
  detail.cross_join example_left example_no_columns 5 9 example_world =
  (example_world, inl (logic_error "Right table is empty")).
Proof.
  apply (cross_join_zero_columns example_left example_no_columns 5 9
           example_world).
  right. reflexivity.
Defined.

(** C4. Both tables have a column and one of them has no rows:
    [cross_join] returns a table of zero rows and [p + q] columns with the
    element types of both inputs in order.  Zero rows is what every column
    has: the result satisfies the Table invariant on the device, each
    column of size zero over zero-length buffers, and the buffers are new
    ones, none an input's.  The only primitives invoked are Empty-Like,
    once per side, and the table constructor: neither repetition nor
    tiling runs, and no cell of the device is taken. *)
Theorem cross_join_zero_rows left right mr s w :
  0 < num_columns left -> 0 < num_columns right ->
  num_rows left = 0 \/ num_rows right = 0 ->
  exists w' t,
    detail.cross_join left right mr s w = (w', inr t) /\
    num_rows t = 0 /\
    num_columns t = num_columns left + num_columns right /\
    schema t = schema left ++ schema right /\
    trace w' = trace w ++ [ev_ok prim_empty_like None None;
                           ev_ok prim_empty_like None None;
                           ev_ok prim_table None None] /\
    free_cells w' = free_cells w /\
    table_ok (heap w') t = true /\
    Forall (fun c => col_size c = 0) (columns t) /\
    Forall (fun id => length (heap w) <= id)
      (flat_map column_buffers (columns t)).
Proof.
  intros Hp Hq Hz. rewrite cross_join_paths.
  destruct (0 =? num_columns left) eqn:E1; [apply Nat.eqb_eq in E1; lia|].
  destruct (0 =? num_columns right) eqn:E2; [apply Nat.eqb_eq in E2; lia|].
  rewrite (proj2 (zero_rows_cases left right) Hz).
  destruct (empty_path_success left right w Hz) as (w' & t & bs & E & J).
  exists w', t. split; [done|].
  pose proof (j_built _ _ _ _ _ _ _ _ J) as Hb.
  pose proof (j_cells _ _ _ _ _ _ _ _ J) as Hc.
  pose proof (j_rows _ _ _ _ _ _ _ _ J) as Hr.
  pose proof (j_ok _ _ _ _ _ _ _ _ J) as Hok.
  assert (H0 : num_rows t = 0) by (destruct Hz; nia).
  split; [done|].
  split; [apply (j_cols _ _ _ _ _ _ _ _ J)|].
  split; [apply (j_schema _ _ _ _ _ _ _ _ J)|].
  split; [apply (built_trace _ _ _ _ _ _ Hb)|].
  split.
  { pose proof (built_free _ _ _ _ _ _ Hb) as Hf.
    unfold cross_join_cells in Hc. destruct Hz; nia. }
  split; [done|]. split.
  - apply table_ok_Forall in Hok. rewrite H0 in Hok.
    eapply Forall_impl; [exact Hok|]. intros c Hc0.
    by apply column_ok_inv in Hc0 as [? _].
  - apply (built_fresh _ _ _ _ _ _ Hb).
Qed.

Lemma cross_join_zero_rows_witness :
  exists w' t,
    detail.cross_join example_left example_no_rows 5 9 example_world
    = (w', inr t) /\
    num_rows t = 0 /\ num_columns t = 1 + 1 /\
    schema t = [INT32] ++ [INT64] /\
    trace w' = [] ++ [ev_ok prim_empty_like None None;
                      ev_ok prim_empty_like None None;
                      ev_ok prim_table None None] /\
    free_cells w' = 100 /\
    table_ok (heap w') t = true /\
    Forall (fun c => col_size c = 0) (columns t) /\
    Forall (fun id => 5 <= id) (flat_map column_buffers (columns t)).
Proof.
  apply (cross_join_zero_rows example_left example_no_rows 5 9 example_world);
    [vm_compute; lia | vm_compute; lia | right; reflexivity].
Defined.

(** C7. A right table of exactly one row: the result has the rows of the
    left table, as many and in order, each followed by that one row. *)
Theorem cross_join_single_row left right mr s w :
  table_ok (heap w) left = true -> table_ok (heap w) right = true ->
  0 < num_columns left -> 0 < num_columns right ->
  num_rows right = 1 ->
  cross_join_cells left right <= free_cells w ->
  exists w' t,
    detail.cross_join left right mr s w = (w', inr t) /\
    num_rows t = num_rows left /\
    forall i, i < num_rows left ->
      row (heap w') t i = row (heap w) left i ++ row (heap w) right 0.
Proof.
  intros HL HR Hp Hq H1 Hfree.
  destruct (cross_join_success left right mr s w HL HR Hp Hq Hfree)
    as (w' & t & bs & E & J).
  exists w', t. split; [done|].
  split; [rewrite (j_rows _ _ _ _ _ _ _ _ J); lia|].
  intros i Hi. rewrite (j_row _ _ _ _ _ _ _ _ J i) by lia.
  by rewrite H1, Nat.div_1_r, Nat.mod_1_r.
Qed.

Lemma cross_join_single_row_witness :
  exists w' t,
    detail.cross_join example_left example_single_row 5 9 example_world
    = (w', inr t) /\
    num_rows t = 2 /\
    forall i, i < 2 ->
      row (heap w') t i =
      row (heap example_world) example_left i ++
      row (heap example_world) example_single_row 0.
Proof.
  apply (cross_join_single_row example_left example_single_row 5 9
           example_world); try reflexivity; vm_compute; lia.
Defined.

Lemma table_ok_app h ext t :
  table_ok h t = true -> table_ok (h ++ ext) t = true.
Proof. intros H. apply table_ok_Forall. by apply table_ok_app_l. Qed.

(** A first join that leaves every well-formed table as it was, with the
    cells it took. *)
Lemma cross_join_first l r mr s w :
  table_ok (heap w) l = true -> table_ok (heap w) r = true ->
  0 < num_columns l -> 0 < num_columns r ->
  cross_join_cells l r <= free_cells w ->
  exists w1 t bs,
    detail.cross_join l r mr s w = (w1, inr t) /\
    joined l r (through (path_resource l r mr)) (path_events l r mr s)
      w w1 t bs /\
    (forall c, table_ok (heap w) c = true ->
       table_ok (heap w1) c = true /\
       forall i, row (heap w1) c i = row (heap w) c i) /\
    free_cells w1 + cross_join_cells l r = free_cells w.
Proof.
  intros HL HR Hp Hq Hfree.
  destruct (cross_join_success l r mr s w HL HR Hp Hq Hfree)
    as (w1 & t & bs & E & J).
  exists w1, t, bs. split; [done|]. split; [done|].
  pose proof (j_built _ _ _ _ _ _ _ _ J) as Hb.
  split.
  - intros c Hc. rewrite (built_heap _ _ _ _ _ _ Hb).
    split; [by apply table_ok_app|].
    intros i. apply row_app_l. by apply table_ok_readable.
  - rewrite <- (j_cells _ _ _ _ _ _ _ _ J). apply (built_free _ _ _ _ _ _ Hb).
Qed.

(** One join after another: the second finds the result of the first, and
    the third table, well formed on the device the first left behind. *)
Lemma cross_join_twice l r c mr s w :
  table_ok (heap w) l = true -> table_ok (heap w) r = true ->
  table_ok (heap w) c = true ->
  0 < num_columns l -> 0 < num_columns r ->
  cross_join_cells l r <= free_cells w ->
  exists w1 t,
    detail.cross_join l r mr s w = (w1, inr t) /\
    table_ok (heap w1) t = true /\ table_ok (heap w1) c = true /\
    num_rows t = num_rows l * num_rows r /\
    num_columns t = num_columns l + num_columns r /\
    buffer_count t = buffer_count l + buffer_count r /\
    free_cells w1 + cross_join_cells l r = free_cells w.
Proof.
  intros HL HR HC Hp Hq Hfree.
  destruct (cross_join_success l r mr s w HL HR Hp Hq Hfree)
    as (w1 & t & bs & E & [Hb Hc Hok Hrows Hcols _ Hbuf _]).
  exists w1, t. split; [done|]. split; [done|].
  split; [rewrite (built_heap _ _ _ _ _ _ Hb); by apply table_ok_app|].
  split; [done|]. split; [done|]. split; [done|].
  rewrite <- Hc. apply (built_free _ _ _ _ _ _ Hb).
Qed.

(** C8. Three well-formed tables with a column each, and free cells for
    either nesting: both [cross_join (cross_join a b) c] and
    [cross_join a (cross_join b c)] return a table of
    [rows a * rows b * rows c] rows and [cols a + cols b + cols c] columns.
    That row count is the one of every column of either result: both
    satisfy the Table invariant on the device, and both have the schema of
    [a], then [b], then [c]. *)
Theorem cross_join_shape_associative a b c mr s w :
  table_ok (heap w) a = true -> table_ok (heap w) b = true ->
  table_ok (heap w) c = true ->
  0 < num_columns a -> 0 < num_columns b -> 0 < num_columns c ->
  cross_join_cells a b + nested_cells a b c <= free_cells w ->
  cross_join_cells b c + nested_cells a b c <= free_cells w ->
  (exists w1 ab w2 t,
      detail.cross_join a b mr s w = (w1, inr ab) /\
      detail.cross_join (view ab) c mr s w1 = (w2, inr t) /\
      num_rows t = num_rows a * num_rows b * num_rows c /\
      num_columns t = num_columns a + num_columns b + num_columns c /\
      table_ok (heap w2) t = true /\
      Forall (fun x => col_size x = num_rows a * num_rows b * num_rows c)
        (columns t) /\
      schema t = schema a ++ schema b ++ schema c) /\
  (exists w1 bc w2 t,
      detail.cross_join b c mr s w = (w1, inr bc) /\
      detail.cross_join a (view bc) mr s w1 = (w2, inr t) /\
      num_rows t = num_rows a * num_rows b * num_rows c /\
      num_columns t = num_columns a + num_columns b + num_columns c /\
      table_ok (heap w2) t = true /\
      Forall (fun x => col_size x = num_rows a * num_rows b * num_rows c)
        (columns t) /\
      schema t = schema a ++ schema b ++ schema c).
Proof.
  intros Ha Hb Hc Pa Pb Pc F1 F2. unfold nested_cells in *.
  assert (Sizes : forall h t n,
             table_ok h t = true -> num_rows t = n ->
             Forall (fun x => col_size x = n) (columns t)).
  { intros h t n Hok <-. apply table_ok_Forall in Hok.
    eapply Forall_impl; [exact Hok|]. intros x Hx.
    by apply column_ok_inv in Hx as [? _]. }
  split.
  - destruct (cross_join_first a b mr s w Ha Hb Pa Pb)
      as (w1 & ab & bs1 & E1 & J1 & Fr1 & Fc1); [lia|].
    destruct (Fr1 c Hc) as [Oc _].
    destruct (cross_join_success ab c mr s w1 (j_ok _ _ _ _ _ _ _ _ J1) Oc)
      as (w2 & t & bs & E2 & J).
    { rewrite (j_cols _ _ _ _ _ _ _ _ J1). lia. }
    { done. }
    { unfold cross_join_cells at 1.
      rewrite (j_rows _ _ _ _ _ _ _ _ J1), (j_buffers _ _ _ _ _ _ _ _ J1).
      lia. }
    assert (Hrows : num_rows t = num_rows a * num_rows b * num_rows c)
      by (by rewrite (j_rows _ _ _ _ _ _ _ _ J), (j_rows _ _ _ _ _ _ _ _ J1)).
    exists w1, ab, w2, t. split; [done|]. split; [done|]. split; [done|].
    split.
    { by rewrite (j_cols _ _ _ _ _ _ _ _ J), (j_cols _ _ _ _ _ _ _ _ J1). }
    split; [apply (j_ok _ _ _ _ _ _ _ _ J)|].
    split; [apply (Sizes (heap w2)); [apply (j_ok _ _ _ _ _ _ _ _ J)|done]|].
    rewrite (j_schema _ _ _ _ _ _ _ _ J), (j_schema _ _ _ _ _ _ _ _ J1).
    by rewrite <- app_assoc.
  - destruct (cross_join_first b c mr s w Hb Hc Pb Pc)
      as (w1 & bc & bs1 & E1 & J1 & Fr1 & Fc1); [lia|].
    destruct (Fr1 a Ha) as [Oa _].
    destruct (cross_join_success a bc mr s w1 Oa (j_ok _ _ _ _ _ _ _ _ J1))
      as (w2 & t & bs & E2 & J).
    { done. }
    { rewrite (j_cols _ _ _ _ _ _ _ _ J1). lia. }
    { unfold cross_join_cells at 1.
      rewrite (j_rows _ _ _ _ _ _ _ _ J1), (j_buffers _ _ _ _ _ _ _ _ J1).
      lia. }
    assert (Hrows : num_rows t = num_rows a * num_rows b * num_rows c).
    { rewrite (j_rows _ _ _ _ _ _ _ _ J), (j_rows _ _ _ _ _ _ _ _ J1). lia. }
    exists w1, bc, w2, t. split; [done|]. split; [done|]. split; [done|].
    split.
    { rewrite (j_cols _ _ _ _ _ _ _ _ J), (j_cols _ _ _ _ _ _ _ _ J1). lia. }
    split; [apply (j_ok _ _ _ _ _ _ _ _ J)|].
    split; [apply (Sizes (heap w2)); [apply (j_ok _ _ _ _ _ _ _ _ J)|done]|].
    by rewrite (j_schema _ _ _ _ _ _ _ _ J), (j_schema _ _ _ _ _ _ _ _ J1).
Qed.

Lemma cross_join_shape_associative_witness :
  (exists w1 ab w2 t,
      detail.cross_join example_left example_right 5 9 example_world
      = (w1, inr ab) /\
      detail.cross_join (view ab) example_single_row 5 9 w1 = (w2, inr t) /\
      num_rows t = 2 * 3 * 1 /\ num_columns t = 1 + 1 + 1 /\
      table_ok (heap w2) t = true /\
      Forall (fun x => col_size x = 2 * 3 * 1) (columns t) /\
      schema t = [INT32] ++ [INT64] ++ [INT8]) /\
  (exists w1 bc w2 t,
      detail.cross_join example_right example_single_row 5 9 example_world
      = (w1, inr bc) /\
      detail.cross_join example_left (view bc) 5 9 w1 = (w2, inr t) /\
      num_rows t = 2 * 3 * 1 /\ num_columns t = 1 + 1 + 1 /\
      table_ok (heap w2) t = true /\
      Forall (fun x => col_size x = 2 * 3 * 1) (columns t) /\
      schema t = [INT32] ++ [INT64] ++ [INT8]).
Proof.
  apply (cross_join_shape_associative example_left example_right
           example_single_row 5 9 example_world);
    try reflexivity; vm_compute; lia.
Defined.

(** ** Streams and resources *)

Lemma cross_join_trace left right mr s w :
  exists evs,
    trace (fst (detail.cross_join left right mr s w)) = trace w ++ evs /\
    Forall (stream_rule s) evs /\ Forall (resource_rule mr) evs /\
    (0 < num_columns left -> 0 < num_columns right ->
     0 < num_rows left -> 0 < num_rows right ->
     exists o rest,
       evs = mk_invocation prim_repeat (Some mr) (Some s) o :: rest).
Proof.
  pose proof (cross_join_outcome left right mr s w) as H.
  destruct (detail.cross_join left right mr s w) as [w' [e|t]]; simpl.
  - destruct H as (k & evs & [_ _ Ht] & Hcase). exists evs. split; [done|].
    destruct Hcase as [(-> & Hz & _)|(_ & [->| ->])].
    + split; [constructor|]. split; [constructor|]. lia.
    + split; [by repeat constructor|]. split; [by repeat constructor|].
      intros _ _ _ _. by eexists _, _.
    + split; [by repeat constructor|]. split; [by repeat constructor|].
      intros _ _ _ _. by eexists _, _.
  - destruct H as (_ & _ & [bs Hb] & _).
    exists (path_events left right mr s).
    split; [apply (built_trace _ _ _ _ _ _ Hb)|]. unfold path_events.
    destruct ((0 =? num_rows left) || (0 =? num_rows right)) eqn:E.
    + apply zero_rows_cases in E.
      split; [by repeat constructor|]. split; [by repeat constructor|]. lia.
    + split; [by repeat constructor|]. split; [by repeat constructor|].
      intros _ _ _ _. by eexists _, _.
Qed.

(** C5 holds of what the code means to do, not of what it does.  On the
    example, called with stream 9, the call returns after three
    invocations: Row-Repetition is issued with stream 9, as the claim says,
    and Row-Tiling, the sibling call on the next statement, is issued with
    the resource but without the stream. *)
Theorem cross_join_tile_without_stream :
  exists w' t,
    detail.cross_join example_left example_right 5 9 example_world
    = (w', inr t) /\
    trace w' = [mk_invocation prim_repeat (Some 5) (Some 9) None;
                mk_invocation prim_tile (Some 5) None None;
                mk_invocation prim_table None None None].
Proof.
  destruct (cross_join_success example_left example_right 5 9 example_world)
    as (w' & t & bs & E & J); try reflexivity; try (vm_compute; lia).
  exists w', t. split; [done|].
  apply (built_trace _ _ _ _ _ _ (j_built _ _ _ _ _ _ _ _ J)).
Qed.

Lemma built_owned tag evs w w' ids bs :
  built tag evs w w' ids bs ->
  Forall (fun id => exists b, heap w' !! id = Some (Some b) /\ tag b) ids.
Proof.
  intros [Hh -> Ht _ _]. rewrite Hh. apply Forall_forall. intros id Hid.
  apply elem_of_seq in Hid as [Hge Hlt].
  destruct (lookup_lt_is_Some_2 bs (id - length (heap w))) as [b Hb]; [lia|].
  exists b. split.
  - rewrite lookup_app_r by lia. rewrite list_lookup_fmap, Hb. done.
  - apply (Forall_lookup_1 _ _ _ _ Ht Hb).
Qed.

Lemma built_allocated mr evs w w' cols bs :
  built (through mr) evs w w' (flat_map column_buffers cols) bs ->
  Forall (allocated_through (heap w') mr) cols.
Proof.
  intros Hb. apply built_owned in Hb. unfold allocated_through.
  induction cols as [|c cols IH]; [constructor|].
  cbn [flat_map] in Hb. apply Forall_app in Hb as [Hc Hcs].
  constructor; [done|]. by apply IH.
Qed.

(** C6, as stated, fails.  On the empty path, called with resource 5, the
    Empty-Like invocations are given no resource and the zero-row column of
    the result is not allocated through resource 5. *)
Lemma cross_join_resource_counterexample :
  exists w' t,
    detail.cross_join example_left example_no_rows 5 9 example_world
    = (w', inr t) /\
    ~ Forall (allocated_through (heap w') 5) (columns t) /\
    ~ Forall (fun ev => inv_prim ev = prim_empty_like -> inv_mr ev = Some 5)
        (trace w').
Proof.
  eexists _, _. split; [vm_compute; reflexivity|]. split.
  - intros H. apply Forall_cons in H as [H _].
    apply Forall_cons in H as [(b & Hb & Hmr) _].
    vm_compute in Hb. injection Hb as <-. discriminate Hmr.
  - intros H. apply Forall_cons in H as [H _].
    specialize (H eq_refl). discriminate H.
Qed.

(** C6, amended.  When both tables have rows, every column of the table a
    call returns, the repeated and the tiled columns, is allocated through
    the resource supplied by the caller, and in every call Row-Repetition
    and Row-Tiling are invoked with that resource.  When a table has no
    rows the zero-row columns come from Empty-Like, which is invoked
    without a resource: they belong to the default resource. *)
Theorem cross_join_resource left right mr s w :
  match detail.cross_join left right mr s w with
  | (w', inr t) =>
      Forall (allocated_through (heap w')
                (if (0 =? num_rows left) || (0 =? num_rows right)
                 then get_default_resource else mr)) (columns t)
  | (w', inl e) => True
  end /\
  exists evs,
    trace (fst (detail.cross_join left right mr s w)) = trace w ++ evs /\
    Forall (resource_rule mr) evs.
Proof.
  split.
  - pose proof (cross_join_outcome left right mr s w) as H.
    destruct (detail.cross_join left right mr s w) as [w' [e|t]]; [done|].
    destruct H as (_ & _ & [bs Hb] & _).
    apply (built_allocated _ _ _ _ _ _ Hb).
  - destruct (cross_join_trace left right mr s w) as (evs & Ht & _ & Hr & _).
    by exists evs.
Qed.

(** ** Atomicity and frame *)

Lemma cross_join_heap left right mr s w :
  exists ext, heap (fst (detail.cross_join left right mr s w)) = heap w ++ ext.
Proof.
  pose proof (cross_join_outcome left right mr s w) as H.
  destruct (detail.cross_join left right mr s w) as [w' [e|t]]; simpl.
  - destruct H as (k & evs & [Hh _ _] & _). by eexists.
  - destruct H as (_ & _ & [bs [Hh _ _ _ _]] & _). by eexists.
Qed.

(** C9. A call either returns a table or raises an error.  When it returns,
    every primitive it invoked succeeded, the table owns exactly the
    buffers the call allocated, it has all [p + q] columns, and on
    well-formed inputs it is well formed with [m * n] rows.  When it
    raises, the error is the one of the argument check, with nothing
    invoked, or the one the last primitive invoked ended with, unchanged;
    every invocation before it succeeded and none was made twice or after
    it; every buffer the call allocated has been freed and the free cells
    are those of before the call. *)
Theorem cross_join_atomic left right mr s w :
  match detail.cross_join left right mr s w with
  | (w', inr t) =>
      (exists bs,
          built (fun _ => True) (path_events left right mr s) w w'
            (flat_map column_buffers (columns t)) bs) /\
      num_columns t = num_columns left + num_columns right /\
      (table_ok (heap w) left = true -> table_ok (heap w) right = true ->
       table_ok (heap w') t = true /\
       num_rows t = num_rows left * num_rows right)
  | (w', inl e) =>
      exists k evs,
        rolled_back evs w w' k /\
        (evs = [] /\
         e = logic_error (if 0 =? num_columns left
                          then "Left table is empty"
                          else "Right table is empty") \/
         evs = [ev_failed prim_repeat (Some mr) (Some s) e] \/
         evs = [ev_ok prim_repeat (Some mr) (Some s);
                ev_failed prim_tile (Some mr) None e])
  end.
Proof.
  pose proof (cross_join_outcome left right mr s w) as H.
  destruct (detail.cross_join left right mr s w) as [w' [e|t]].
  - destruct H as (k & evs & Hrb & Hcase). exists k, evs. split; [done|].
    destruct Hcase as [(-> & _ & ->)|(_ & [->| ->])]; auto.
  - destruct H as (_ & _ & [bs Hb] & Hcols & Hok). split; [|split; [done|]].
    + exists bs. by apply (built_weaken (through (path_resource left right mr))).
    + intros HL HR. destruct (Hok HL HR) as [bs' J].
      split; [apply (j_ok _ _ _ _ _ _ _ _ J)|apply (j_rows _ _ _ _ _ _ _ _ J)].
Qed.

Lemma cross_join_atomic_witness :
  (exists w' t,
      detail.cross_join example_left example_right 5 9 example_world
      = (w', inr t) /\
      table_ok (heap w') t = true /\ num_rows t = 2 * 3) /\
  (exists w' k,
      detail.cross_join example_left example_right 5 9 tight_world
      = (w', inl bad_alloc) /\
      rolled_back [ev_ok prim_repeat (Some 5) (Some 9);
                   ev_failed prim_tile (Some 5) None bad_alloc]
        tight_world w' k).
Proof.
  split.
  - pose proof (cross_join_atomic example_left example_right 5 9 example_world)
      as H.
    destruct (detail.cross_join example_left example_right 5 9 example_world)
      as [w' [e|t]] eqn:E; [vm_compute in E; discriminate E|].
    exists w', t. split; [reflexivity|].
    destruct H as (_ & _ & H). apply H; reflexivity.
  - pose proof (cross_join_atomic example_left example_right 5 9 tight_world)
      as H.
    destruct (detail.cross_join example_left example_right 5 9 tight_world)
      as [w' [e|t]] eqn:E; [|vm_compute in E; discriminate E].
    assert (e = bad_alloc) as -> by (vm_compute in E; congruence).
    destruct H as (k & evs & Hrb & [[-> He]|[->| ->]]).
    + discriminate He.
    + exfalso. destruct Hrb as [_ _ Ht]. vm_compute in E.
      injection E as <-. discriminate Ht.
    + by exists w', k.
Defined.

(** C10. Whether the call returns or raises, every device buffer that
    existed before it is as it was: the heap after the call is the heap
    before it followed by what the call added.  So any table well formed
    before the call, the inputs among them, is well formed after it with
    the same rows, and the columns of a returned table own new buffers
    only.  The views themselves, their row counts and column lists, are
    values the call cannot change.  The public entry is the same call on
    stream 0. *)
Theorem cross_join_frame left right mr s w :
  let w' := fst (detail.cross_join left right mr s w) in
  (exists ext, heap w' = heap w ++ ext) /\
  (forall id, id < length (heap w) -> heap w' !! id = heap w !! id) /\
  (forall t, table_ok (heap w) t = true ->
             table_ok (heap w') t = true /\
             forall i, row (heap w') t i = row (heap w) t i) /\
  match snd (detail.cross_join left right mr s w) with
  | inr t => Forall (fun id => length (heap w) <= id)
               (flat_map column_buffers (columns t))
  | inl _ => True
  end /\
  cross_join left right mr w = detail.cross_join left right mr 0 w.
Proof.
  destruct (cross_join_heap left right mr s w) as [ext Hh]. simpl.
  split; [by exists ext|]. rewrite Hh.
  split; [|split; [|split; [|done]]].
  - intros id Hid. by apply lookup_app_l.
  - intros t Ht. split; [by apply table_ok_app|].
    intros i. apply row_app_l. by apply table_ok_readable.
  - pose proof (cross_join_outcome left right mr s w) as H.
    destruct (detail.cross_join left right mr s w) as [w' [e|t]]; [done|].
    destruct H as (_ & _ & [bs [_ Hids _ _ _]] & _). simpl. rewrite Hids.
    apply Forall_forall. intros id Hid. apply elem_of_seq in Hid. lia.
Qed.

Lemma cross_join_frame_witness :
  let w' := fst (detail.cross_join example_left example_right 5 9 tight_world) in
  heap w' !! 1 = heap tight_world !! 1 /\
  table_ok (heap w') example_right = true /\
  forall i, row (heap w') example_right i = row (heap tight_world) example_right i.
Proof.
  destruct (cross_join_frame example_left example_right 5 9 tight_world)
    as (_ & Hid & Ht & _ & _).
  split; [apply Hid; vm_compute; lia|]. apply Ht. reflexivity.
Defined.

(** * Further properties of the cross join *)

(** ** The Cartesian product *)

Lemma seq_add_map a b n : seq (a + b) n = map (Nat.add a) (seq b n).
Proof.
  revert b. induction n as [|n IH]; intros b; simpl; [done|].
  by rewrite <- IH, Nat.add_succ_r.
Qed.

Lemma map_div_mod_seq {B} (g : nat -> nat -> B) m n :
  0 < n ->
  map (fun i => g (i / n) (i mod n)) (seq 0 (m * n)) =
  flat_map (fun a => map (g a) (seq 0 n)) (seq 0 m).
Proof.
  intros Hn. induction m as [|m IH]; [done|].
  replace (S m * n) with (m * n + n) by lia.
  rewrite seq_app, map_app, IH, seq_S, flat_map_app. simpl.
  rewrite app_nil_r. f_equal.
  replace (m * n) with (m * n + 0) at 1 by lia.
  rewrite seq_add_map, map_map. apply map_ext_in. intros j Hj.
  apply in_seq in Hj.
  replace (m * n + j) with (j + m * n) by lia.
  rewrite Nat.div_add, Nat.Div0.mod_add by lia.
  by rewrite Nat.div_small, Nat.mod_small by lia.
Qed.

Lemma cartesian_nil_r {A} (xs : list (list A)) : cartesian xs [] = [].
Proof. unfold cartesian. induction xs; simpl; auto. Qed.

Lemma flat_map_map {A B C} (f : B -> list C) (g : A -> B) l :
  flat_map f (map g l) = flat_map (fun a => f (g a)) l.
Proof. induction l; simpl; congruence. Qed.

(** X1. The rows of the result, in order, are the Cartesian product of the
    rows of the left table and the rows of the right table: the doc comment
    of [detail::cross_join], with the order the repeat and tile give it. *)
Theorem cross_join_cartesian left right mr s w :
  table_ok (heap w) left = true -> table_ok (heap w) right = true ->
  0 < num_columns left -> 0 < num_columns right ->
  cross_join_cells left right <= free_cells w ->
  exists w' t,
    detail.cross_join left right mr s w = (w', inr t) /\
    rows (heap w') t = cartesian (rows (heap w) left) (rows (heap w) right).
Proof.
  intros HL HR Hp Hq Hfree.
  destruct (cross_join_success left right mr s w HL HR Hp Hq Hfree)
    as (w' & t & bs & E & J).
  exists w', t. split; [done|]. unfold rows, cartesian.
  rewrite (j_rows _ _ _ _ _ _ _ _ J).
  destruct (num_rows right) as [|n] eqn:En.
  { rewrite Nat.mul_0_r. simpl. symmetry. apply cartesian_nil_r. }
  rewrite flat_map_map.
  erewrite (flat_map_ext _ (fun a => map (fun j => row (heap w) left a ++
                                        row (heap w) right j) (seq 0 (S n))))
    by (intros a; apply map_map).
  rewrite <- (map_div_mod_seq
                (fun a j => row (heap w) left a ++ row (heap w) right j))
    by lia.
  apply map_ext_in. intros i Hi. apply in_seq in Hi.
  rewrite (j_row _ _ _ _ _ _ _ _ J i) by (rewrite En; lia).
  by rewrite En.
Qed.

Lemma cross_join_cartesian_witness :
  exists w' t,
    detail.cross_join example_left example_right 5 9 example_world
    = (w', inr t) /\
    rows (heap w') t =
    cartesian (rows (heap example_world) example_left)
      (rows (heap example_world) example_right).
Proof.
  apply (cross_join_cartesian example_left example_right 5 9 example_world);
    try reflexivity; vm_compute; lia.
Defined.

(** X2. A left table of exactly one row: the result has the rows of the
    right table, as many and in order, each preceded by that one row. *)
Theorem cross_join_single_row_left left right mr s w :
  table_ok (heap w) left = true -> table_ok (heap w) right = true ->
  0 < num_columns left -> 0 < num_columns right ->
  num_rows left = 1 ->
  cross_join_cells left right <= free_cells w ->
  exists w' t,
    detail.cross_join left right mr s w = (w', inr t) /\
    num_rows t = num_rows right /\
    forall i, i < num_rows right ->
      row (heap w') t i = row (heap w) left 0 ++ row (heap w) right i.
Proof.
  intros HL HR Hp Hq H1 Hfree.
  destruct (cross_join_success left right mr s w HL HR Hp Hq Hfree)
    as (w' & t & bs & E & J).
  exists w', t. split; [done|].
  split; [rewrite (j_rows _ _ _ _ _ _ _ _ J); lia|].
  intros i Hi. rewrite (j_row _ _ _ _ _ _ _ _ J i) by lia.
  by rewrite Nat.div_small, Nat.mod_small.
Qed.

Lemma cross_join_single_row_left_witness :
  exists w' t,
    detail.cross_join example_single_row example_right 5 9 example_world
    = (w', inr t) /\
    num_rows t = 3 /\
    forall i, i < 3 ->
      row (heap w') t i =
      row (heap example_world) example_single_row 0 ++
      row (heap example_world) example_right i.
Proof.
  apply (cross_join_single_row_left example_single_row example_right 5 9
           example_world); try reflexivity; vm_compute; lia.
Defined.

(** X3. Joining the other way round gives the same pairs: the pair of left
    row [i] and right row [j] is row [i * n + j] of [cross_join left right]
    and, its halves swapped, row [j * m + i] of [cross_join right left]. *)
Theorem cross_join_swap left right mr s w :
  table_ok (heap w) left = true -> table_ok (heap w) right = true ->
  0 < num_columns left -> 0 < num_columns right ->
  cross_join_cells left right <= free_cells w ->
  exists w1 t1 w2 t2,
    detail.cross_join left right mr s w = (w1, inr t1) /\
    detail.cross_join right left mr s w = (w2, inr t2) /\
    num_rows t1 = num_rows t2 /\
    forall i j, i < num_rows left -> j < num_rows right ->
      row (heap w1) t1 (i * num_rows right + j) =
        row (heap w) left i ++ row (heap w) right j /\
      row (heap w2) t2 (j * num_rows left + i) =
        row (heap w) right j ++ row (heap w) left i.
Proof.
  intros HL HR Hp Hq Hfree.
  destruct (cross_join_success left right mr s w HL HR Hp Hq Hfree)
    as (w1 & t1 & bs1 & E1 & J1).
  destruct (cross_join_success right left mr s w HR HL Hq Hp)
    as (w2 & t2 & bs2 & E2 & J2).
  { unfold cross_join_cells in *. nia. }
  exists w1, t1, w2, t2. split; [done|]. split; [done|].
  split.
  { rewrite (j_rows _ _ _ _ _ _ _ _ J1), (j_rows _ _ _ _ _ _ _ _ J2). lia. }
  intros i j Hi Hj. split.
  - rewrite (j_row _ _ _ _ _ _ _ _ J1) by nia.
    replace (i * num_rows right + j) with (j + i * num_rows right) by lia.
    rewrite Nat.div_add, Nat.Div0.mod_add by lia.
    by rewrite Nat.div_small, Nat.mod_small by lia.
  - rewrite (j_row _ _ _ _ _ _ _ _ J2) by nia.
    replace (j * num_rows left + i) with (i + j * num_rows left) by lia.
    rewrite Nat.div_add, Nat.Div0.mod_add by lia.
    by rewrite Nat.div_small, Nat.mod_small by lia.
Qed.

Lemma cross_join_swap_witness :
  exists w1 t1 w2 t2,
    detail.cross_join example_left example_right 5 9 example_world
    = (w1, inr t1) /\
    detail.cross_join example_right example_left 5 9 example_world
    = (w2, inr t2) /\
    num_rows t1 = num_rows t2 /\
    forall i j, i < 2 -> j < 3 ->
      row (heap w1) t1 (i * 3 + j) =
        row (heap example_world) example_left i ++
        row (heap example_world) example_right j /\
      row (heap w2) t2 (j * 2 + i) =
        row (heap example_world) example_right j ++
        row (heap example_world) example_left i.
Proof.
  apply (cross_join_swap example_left example_right 5 9 example_world);
    try reflexivity; vm_compute; lia.
Defined.

(** ** Nested joins *)

Lemma div_mod_nested i nb nc :
  0 < nc ->
  i / nc / nb = i / (nb * nc) /\
  i mod (nb * nc) / nc = (i / nc) mod nb /\
  (i mod (nb * nc)) mod nc = i mod nc.
Proof.
  intros Hc. rewrite (Nat.mul_comm nb nc).
  split; [apply Nat.Div0.div_div|].
  rewrite Nat.Div0.mod_mul_r.
  replace (i mod nc + nc * ((i / nc) mod nb))
    with (i mod nc + ((i / nc) mod nb) * nc) by lia.
  rewrite Nat.div_add, Nat.Div0.mod_add by lia.
  rewrite Nat.div_small by (apply Nat.mod_upper_bound; lia).
  by rewrite Nat.Div0.mod_mod.
Qed.

(** X4. The two nestings of three tables agree not only in shape: they
    return the same schema and the same rows in the same order, row [i]
    being row [i / (nb * nc)] of [a], row [(i / nc) mod nb] of [b] and row
    [i mod nc] of [c], one after the other. *)
Theorem cross_join_associative a b c mr s w :
  table_ok (heap w) a = true -> table_ok (heap w) b = true ->
  table_ok (heap w) c = true ->
  0 < num_columns a -> 0 < num_columns b -> 0 < num_columns c ->
  cross_join_cells a b + nested_cells a b c <= free_cells w ->
  cross_join_cells b c + nested_cells a b c <= free_cells w ->
  exists w1 ab w2 t w1' bc w2' t',
    detail.cross_join a b mr s w = (w1, inr ab) /\
    detail.cross_join (view ab) c mr s w1 = (w2, inr t) /\
    detail.cross_join b c mr s w = (w1', inr bc) /\
    detail.cross_join a (view bc) mr s w1' = (w2', inr t') /\
    schema t = schema t' /\
    forall i, i < num_rows a * num_rows b * num_rows c ->
      row (heap w2) t i = row (heap w2') t' i /\
      row (heap w2) t i =
        row (heap w) a (i / (num_rows b * num_rows c)) ++
        row (heap w) b ((i / num_rows c) mod num_rows b) ++
        row (heap w) c (i mod num_rows c).
Proof.
  intros Ha Hb Hc Pa Pb Pc F1 F2. unfold nested_cells in *.
  destruct (cross_join_first a b mr s w Ha Hb Pa Pb)
    as (w1 & ab & bs1 & E1 & J1 & Fr1 & Fc1); [lia|].
  destruct (Fr1 c Hc) as [Oc Rc].
  destruct (cross_join_first ab c mr s w1 (j_ok _ _ _ _ _ _ _ _ J1) Oc)
    as (w2 & t & bs2 & E2 & J2 & _ & _).
  { rewrite (j_cols _ _ _ _ _ _ _ _ J1). lia. }
  { done. }
  { unfold cross_join_cells at 1.
    rewrite (j_rows _ _ _ _ _ _ _ _ J1), (j_buffers _ _ _ _ _ _ _ _ J1). lia. }
  destruct (cross_join_first b c mr s w Hb Hc Pb Pc)
    as (w1' & bc & bs1' & E1' & J1' & Fr1' & Fc1'); [lia|].
  destruct (Fr1' a Ha) as [Oa Ra].
  destruct (cross_join_first a bc mr s w1' Oa (j_ok _ _ _ _ _ _ _ _ J1'))
    as (w2' & t' & bs2' & E2' & J2' & _ & _).
  { done. }
  { rewrite (j_cols _ _ _ _ _ _ _ _ J1'). lia. }
  { unfold cross_join_cells at 1.
    rewrite (j_rows _ _ _ _ _ _ _ _ J1'), (j_buffers _ _ _ _ _ _ _ _ J1'). lia. }
  exists w1, ab, w2, t, w1', bc, w2', t'.
  split; [done|]. split; [done|]. split; [done|]. split; [done|].
  split.
  { rewrite (j_schema _ _ _ _ _ _ _ _ J2), (j_schema _ _ _ _ _ _ _ _ J1),
      (j_schema _ _ _ _ _ _ _ _ J2'), (j_schema _ _ _ _ _ _ _ _ J1').
    by rewrite app_assoc. }
  intros i Hi.
  assert (Hnc : 0 < num_rows c) by nia.
  assert (Hnb : 0 < num_rows b) by nia.
  destruct (div_mod_nested i (num_rows b) (num_rows c) Hnc) as (D1 & D2 & D3).
  assert (L : row (heap w2) t i =
              row (heap w) a (i / (num_rows b * num_rows c)) ++
              row (heap w) b ((i / num_rows c) mod num_rows b) ++
              row (heap w) c (i mod num_rows c)).
  { rewrite (j_row _ _ _ _ _ _ _ _ J2 i)
      by (rewrite (j_rows _ _ _ _ _ _ _ _ J1); lia).
    rewrite (j_row _ _ _ _ _ _ _ _ J1 (i / num_rows c))
      by (apply Nat.Div0.div_lt_upper_bound; lia).
    by rewrite Rc, D1, <- app_assoc. }
  split; [|done]. rewrite L.
  rewrite (j_row _ _ _ _ _ _ _ _ J2' i)
    by (rewrite (j_rows _ _ _ _ _ _ _ _ J1'); lia).
  rewrite (j_rows _ _ _ _ _ _ _ _ J1').
  rewrite (j_row _ _ _ _ _ _ _ _ J1' (i mod (num_rows b * num_rows c)))
    by (apply Nat.mod_upper_bound; lia).
  by rewrite Ra, D2, D3.
Qed.

Lemma cross_join_associative_witness :
  exists w1 ab w2 t w1' bc w2' t',
    detail.cross_join example_left example_right 5 9 example_world
    = (w1, inr ab) /\
    detail.cross_join (view ab) example_single_row 5 9 w1 = (w2, inr t) /\
    detail.cross_join example_right example_single_row 5 9 example_world
    = (w1', inr bc) /\
    detail.cross_join example_left (view bc) 5 9 w1' = (w2', inr t') /\
    schema t = schema t' /\
    forall i, i < 2 * 3 * 1 ->
      row (heap w2) t i = row (heap w2') t' i /\
      row (heap w2) t i =
        row (heap example_world) example_left (i / (3 * 1)) ++
        row (heap example_world) example_right ((i / 1) mod 3) ++
        row (heap example_world) example_single_row (i mod 1).
Proof.
  apply (cross_join_associative example_left example_right example_single_row
           5 9 example_world); try reflexivity; vm_compute; lia.
Defined.

(** ** Ownership of the result *)

(** X5. The table a call returns owns buffers that are pairwise distinct,
    and destroying it frees every buffer the call allocated: the device
    then holds what it held before the call, with as many free cells. *)
Theorem cross_join_result_owned left right mr s w :
  match detail.cross_join left right mr s w with
  | (w', inr t) =>
      NoDup (flat_map column_buffers (columns t)) /\
      exists k,
        rolled_back (path_events left right mr s) w (destroy_table t w') k
  | (w', inl e) => True
  end.
Proof.
  pose proof (cross_join_outcome left right mr s w) as H.
  destruct (detail.cross_join left right mr s w) as [w' [e|t]]; [done|].
  destruct H as (_ & _ & [bs Hb] & _). split.
  - rewrite (built_ids _ _ _ _ _ _ Hb). apply NoDup_seq.
  - exists (length bs + 0). unfold destroy_table.
    rewrite destroy_columns_flat.
    rewrite <- (app_nil_r (path_events left right mr s)).
    apply (built_rolled_back _ _ _ _ _ _ _ _ _ Hb (rolled_back_refl w')).
Qed.

(** ** What the degenerate paths ignore *)

(** X6. When a table has no columns or no rows, the memory resource and the
    stream passed to the call play no part: any other pair gives the same
    outcome and the same device. *)
Theorem cross_join_degenerate_ignores left right mr s mr' s' w :
  num_columns left = 0 \/ num_columns right = 0 \/
  num_rows left = 0 \/ num_rows right = 0 ->
  detail.cross_join left right mr s w = detail.cross_join left right mr' s' w.
Proof.
  intros H. rewrite !cross_join_paths.
  destruct (0 =? num_columns left) eqn:E1; [done|].
  destruct (0 =? num_columns right) eqn:E2; [done|].
  apply Nat.eqb_neq in E1, E2.
  rewrite (proj2 (zero_rows_cases left right)); [done|]. lia.
Qed.

Lemma cross_join_degenerate_ignores_witness :
  detail.cross_join example_left example_no_rows 5 9 example_world =
  detail.cross_join example_left example_no_rows 0 0 example_world.
Proof.
  apply (cross_join_degenerate_ignores example_left example_no_rows 5 9 0 0
           example_world).
  right. right. right. reflexivity.
Defined.

(** ** Null masks *)

Lemma read_column_nullable h c d m :
  read_column h c = Some (d, m) ->
  nullable c = match m with Some _ => true | None => false end.
Proof.
  unfold read_column, nullable.
  destruct (read_buffer h (col_data c)); [|done].
  destruct (col_null_mask c) as [j|].
  - destruct (read_buffer h j); [|done]. by intros [= <- <-].
  - by intros [= <- <-].
Qed.

Lemma derived_nullable f g h c c' : derived f g h c c' -> nullable c' = nullable c.
Proof.
  intros (_ & _ & d & m & Hr & Hr').
  rewrite (read_column_nullable _ _ _ _ Hr), (read_column_nullable _ _ _ _ Hr').
  by destruct m.
Qed.

Lemma emptied_nullable h c c' : emptied h c c' -> nullable c' = nullable c.
Proof.
  intros (_ & _ & Hr). rewrite (read_column_nullable _ _ _ _ Hr).
  unfold nullable. by destruct (col_null_mask c).
Qed.

(** X7. Every call that returns keeps the null-mask capability of every
    column: the columns of the result are nullable exactly where the
    columns of the left table, then those of the right table, are. *)
Theorem cross_join_nullable left right mr s w :
  match detail.cross_join left right mr s w with
  | (w', inr t) =>
      map nullable (columns t) =
      map nullable (columns left) ++ map nullable (columns right)
  | (w', inl e) => True
  end.
Proof.
  rewrite cross_join_paths.
  destruct (0 =? num_columns left); [done|].
  destruct (0 =? num_columns right); [done|].
  destruct ((0 =? num_rows left) || (0 =? num_rows right)).
  - destruct (empty_path_outcome left right w)
      as (w' & t & cl & cr & bs & -> & -> & _ & _ & _ & El & Er).
    rewrite map_app. f_equal; apply Forall2_map_eq;
      (eapply Forall2_impl; [eassumption|]); intros c c';
      apply emptied_nullable.
  - pose proof (general_path_outcome left right mr s w) as H.
    destruct (stitched _ _ w) as [w' [e|t]]; [done|].
    destruct H as (cl & cr & bs & -> & _ & _ & _ & Dl & Dr).
    rewrite map_app. f_equal; apply Forall2_map_eq;
      (eapply Forall2_impl; [eassumption|]); intros c c';
      apply derived_nullable.
Qed.

(** ** The public entry *)



